(** * A Sudoku board and its backtracking solver (solver.py)

    Shallow embedding of the [Board] class and of [solve].  The board owns
    one mutable grid, [self._board], a Python list of nine row lists; every
    method reads or writes that grid in place.  The grid is the state of a
    small state-and-exception monad: a method is a function from the grid at
    entry to an [outcome] carrying the grid at exit.

    Conventions.
    - Python integers are [Z]; subscripts follow Python's rules, so the
      indices [-len .. -1] address the list from its end and anything
      outside [-len .. len-1] raises [IndexError].
    - A grid is a value of type [list (list Z)]: the board whose nine rows
      are nine list objects of their own, as in the literal grid of [main].
      [Board.__init__] keeps the list it is given without copying it, so a
      caller can also put one row object under several subscripts.  Module
      [Heap] holds the board as references to row objects for that case;
      [simulates_solve] and its companions show that it does what the grid
      model does whenever the row objects are pairwise distinct, and the
      statements that depend on which rows a write reaches are made there.
    - [solve] recurses on the board it mutates; the recursion carries a
      fuel counter, and the development shows which fuel always suffices. *)

From Stdlib Require Import ZArith Lia String Ascii DecimalString Sorted.
From stdpp Require Import base option list functions gmap.

Local Open Scope Z_scope.

(** ** Python lists *)

Module Py.

(** Position addressed by the subscript [i] in a list, if any. *)
Definition index {A} (l : list A) (i : Z) : option nat :=
  let n := Z.of_nat (length l) in
  if bool_decide (0 ≤ i < n) then Some (Z.to_nat i)
  else if bool_decide (- n ≤ i < 0) then Some (Z.to_nat (i + n))
  else None.

(** [l[i]] *)
Definition getitem {A} (l : list A) (i : Z) : option A :=
  match index l i with
  | Some k => l !! k
  | None => None
  end.

(** [l[i] = x] *)
Definition setitem {A} (l : list A) (i : Z) (x : A) : option (list A) :=
  match index l i with
  | Some k => Some (<[k:=x]> l)
  | None => None
  end.

(** [range(start, stop)] *)
Definition range (start stop : Z) : list Z := seqZ start (stop - start).

(** [range(start, stop, step)] for a positive step *)
Definition range_step (start stop step : Z) : list Z :=
  (λ k, start + step * k) <$> seqZ 0 ((stop - start + step - 1) `div` step).

(** [l[lo:hi]] for [0 <= lo <= hi]; a slice never raises *)
Definition slice {A} (l : list A) (lo hi : Z) : list A :=
  take (Z.to_nat (hi - lo)) (drop (Z.to_nat lo) l).

(** [str(n)] for an integer *)
Definition str (n : Z) : string := NilZero.string_of_int (Z.to_int n).

(** [sep.join(parts)] *)
Fixpoint join (sep : string) (parts : list string) : string :=
  match parts with
  | [] => EmptyString
  | [p] => p
  | p :: ps => (p ++ sep ++ join sep ps)%string
  end.

(** [c * n] for a one-character string [c] *)
Fixpoint repeat_char (c : ascii) (n : nat) : string :=
  match n with
  | O => EmptyString
  | S n' => String c (repeat_char c n')
  end.

End Py.

(** ** The board state and the method monad *)

Abbreviation grid := (list (list Z)).

Inductive exn := IndexError | AssertionError.

Inductive outcome (A : Type) : Type :=
| Return (a : A) (s : grid)      (* normal return, grid at exit *)
| Raise (e : exn) (s : grid)     (* exception, grid when it was raised *)
| OutOfFuel.                     (* recursion budget exhausted *)
Arguments Return {A} a s.
Arguments Raise {A} e s.
Arguments OutOfFuel {A}.

Definition M (A : Type) : Type := grid → outcome A.

Definition ret {A} (a : A) : M A := λ s, Return a s.

Definition bind {A B} (m : M A) (k : A → M B) : M B :=
  λ s, match m s with
       | Return a s' => k a s'
       | Raise e s' => Raise e s'
       | OutOfFuel => OutOfFuel
       end.

Notation "'do' x <- m ; k" := (bind m (λ x, k))
  (at level 10, x name, m at level 100, k at level 200).
Notation "'do_' m ; k" := (bind m (λ _, k))
  (at level 10, m at level 100, k at level 200).

(** Grid at exit of a run, whatever the outcome; [None] when out of fuel. *)
Definition final {A} (o : outcome A) : option grid :=
  match o with
  | Return _ s => Some s
  | Raise _ s => Some s
  | OutOfFuel => None
  end.

(** ** class Board *)

(** [Board.__init__]: the three assertions, in source order. *)
Definition Board_init (board : grid) : exn + grid :=
  if negb (Nat.eqb (length board) 9) then inl AssertionError
  else if negb (forallb (λ row, Nat.eqb (length row) 9) board) then inl AssertionError
  else if negb (forallb (λ value, (0 <=? value) && (value <=? 9)) (concat board))
       then inl AssertionError
  else inr board.

(** [self._board[row][column]] *)
Definition get_value (row column : Z) : M Z :=
  λ s, match Py.getitem s row with
       | None => Raise IndexError s
       | Some r =>
           match Py.getitem r column with
           | None => Raise IndexError s
           | Some v => Return v s
           end
       end.

(** [self._board[row][column] = value] *)
Definition set_value (row column value : Z) : M unit :=
  λ s, match Py.index s row, Py.getitem s row with
       | Some k, Some r =>
           match Py.setitem r column value with
           | None => Raise IndexError s
           | Some r' => Return tt (<[k:=r']> s)
           end
       | _, _ => Raise IndexError s
       end.

(** [_is_valid]: the non-zero values, then [len(set(..)) == len(..)]. *)
Definition _is_valid (values : list Z) : bool :=
  let non_zero_values := filter (λ value, value ≠ 0) values in
  Nat.eqb (size (list_to_set non_zero_values : gset Z)) (length non_zero_values).

(** [_get_columns]: [[row[i] for row in self._board] for i in range(9)] *)
Definition columns_of (board : grid) : option (list (list Z)) :=
  mapM (λ i, mapM (λ row, Py.getitem row i) board) (Py.range 0 9).

(** [_get_squares]: the nested comprehension over [i], [j], [k], [l]. *)
Definition squares_of (board : grid) : option (list (list Z)) :=
  mapM (λ ij : Z * Z,
          mapM (λ kl : Z * Z,
                  match Py.getitem board (ij.1 + kl.1) with
                  | Some r => Py.getitem r (ij.2 + kl.2)
                  | None => None
                  end)
               (i ← Py.range 0 3; j ← Py.range 0 3; [(i, j)]))
       (i ← Py.range_step 0 9 3; j ← Py.range_step 0 9 3; [(i, j)]).

(** A read of the grid that may raise [IndexError]. *)
Definition reading {A} (f : grid → option A) : M A :=
  λ s, match f s with
       | Some a => Return a s
       | None => Raise IndexError s
       end.

Definition _get_columns : M (list (list Z)) := reading columns_of.
Definition _get_squares : M (list (list Z)) := reading squares_of.

Definition _is_valid_rows : M bool :=
  λ s, Return (forallb _is_valid s) s.

Definition _is_valid_columns : M bool :=
  do columns <- _get_columns; ret (forallb _is_valid columns).

Definition _is_valid_squares : M bool :=
  do squares <- _get_squares; ret (forallb _is_valid squares).

(** [is_valid]: the three checks joined by Python's short-circuit [and]. *)
Definition is_valid : M bool :=
  do rows_ok <- _is_valid_rows;
  if rows_ok then
    do columns_ok <- _is_valid_columns;
    if columns_ok then _is_valid_squares else ret false
  else ret false.

(** [is_finished] *)
Definition all_filled : M bool :=
  λ s, Return (forallb (λ value, negb (value =? 0)) (concat s)) s.

Definition is_finished : M bool :=
  do filled <- all_filled;
  if filled then is_valid else ret false.

(** The probing loop of [valid_values]; [acc] is the list built so far. *)
Fixpoint probe (row column : Z) (values acc : list Z) : M (list Z) :=
  match values with
  | [] => ret acc
  | value :: rest =>
      do_ set_value row column value;
      do ok <- is_valid;
      probe row column rest (if ok then acc ++ [value] else acc)
  end.

(** [valid_values] *)
Definition valid_values (row column : Z) : M (list Z) :=
  do original_value <- get_value row column;
  do valid <- probe row column (Py.range 1 10) [];
  do_ set_value row column original_value;
  ret valid.

(** [__str__] *)
Definition format_cell (value : Z) : string :=
  if negb (value =? 0) then Py.str value else ".".

Definition format_row (row : list Z) : string :=
  Py.join " | "
    ((λ j, Py.join " " (format_cell <$> Py.slice row j (j + 3)))
       <$> Py.range_step 0 9 3).

(** The loop over [enumerate(self._board)]; [i] is the running index. *)
Fixpoint str_rows (i : Z) (board : grid) : list string :=
  match board with
  | [] => []
  | row :: rest =>
      (if (i `mod` 3 =? 0) && negb (i =? 0) then [Py.repeat_char "-" 21] else [])
        ++ format_row row :: str_rows (i + 1) rest
  end.

Definition Board_str : M string :=
  λ s, Return (Py.join (String "010" EmptyString) (str_rows 0 s)) s.

(** ** solve *)

(** What [solve] hands back: the board itself, or [None]. *)
Inductive answer := Solved | NotSolvable.

(** The loop over the candidates of one empty cell.  [recurse] is the
    recursive call [solve(board)]. *)
Fixpoint try_values (recurse : M answer) (row column : Z) (values : list Z)
  : M answer :=
  match values with
  | [] => ret NotSolvable
  | value :: rest =>
      do_ set_value row column value;
      do r <- recurse;
      match r with
      | Solved => ret Solved
      | NotSolvable =>
          do_ set_value row column 0;
          try_values recurse row column rest
      end
  end.

(** The two nested [for] loops, flattened to the row-major list of cells.
    The body runs at the first cell holding 0 and its [return] leaves both
    loops; running off the end returns [None]. *)
Fixpoint scan (cells : list (Z * Z)) (body : Z → Z → M answer) : M answer :=
  match cells with
  | [] => ret NotSolvable
  | (row, column) :: rest =>
      do v <- get_value row column;
      if v =? 0 then body row column else scan rest body
  end.

Definition cells : list (Z * Z) :=
  row ← Py.range 0 9; column ← Py.range 0 9; [(row, column)].

Fixpoint solve_fuel (fuel : nat) : M answer :=
  match fuel with
  | O => λ _, OutOfFuel
  | S fuel' =>
      do finished <- is_finished;
      if finished then ret Solved
      else scan cells (λ row column,
             do values <- valid_values row column;
             try_values (solve_fuel fuel') row column values)
  end.

(** A call of [solve] nests at most 81 further calls (one per empty cell),
    so 82 units of fuel are never exhausted on a 9x9 board. *)
Definition solve : M answer := solve_fuel 82.

(** The puzzle of [main]. *)
Definition main_board : grid :=
  [ [0; 0; 7; 0; 8; 0; 4; 0; 2];
    [0; 0; 9; 0; 5; 0; 0; 0; 0];
    [0; 8; 0; 0; 7; 4; 5; 0; 9];
    [0; 0; 0; 0; 0; 0; 0; 6; 0];
    [0; 0; 1; 0; 0; 5; 0; 2; 0];
    [4; 9; 0; 8; 0; 7; 0; 5; 0];
    [7; 3; 4; 5; 1; 6; 2; 9; 8];
    [0; 0; 6; 0; 2; 0; 0; 4; 0];
    [0; 0; 0; 0; 0; 0; 0; 0; 0] ].

(** ** Vocabulary for the statements *)

(** A grid of nine rows of nine cells: what [Board.__init__] checks about
    the lengths, and what every write through [set_value] preserves. *)
Definition shaped (s : grid) : Prop :=
  length s = 9%nat ∧ Forall (λ row, length row = 9%nat) s.

(** The entries are digits 0..9 (third assertion of [Board.__init__]). *)
Definition digits (s : grid) : Prop :=
  Forall (Forall (λ value, 0 ≤ value ≤ 9)) s.

(** A cell position, counted from the top-left corner. *)
Definition pos : Type := nat * nat.

Definition inside (p : pos) : Prop := (p.1 < 9)%nat ∧ (p.2 < 9)%nat.

(** Content of a cell (0 outside the grid). *)
Definition cell (s : grid) (p : pos) : Z :=
  match s !! p.1 with
  | Some row => default 0 (row !! p.2)
  | None => 0
  end.

(** The grid with one cell overwritten. *)
Definition upd (s : grid) (p : pos) (v : Z) : grid :=
  match s !! p.1 with
  | Some row => <[p.1 := <[p.2 := v]> row]> s
  | None => s
  end.

(** The 27 groups as lists of positions. *)
Definition row_group (r : nat) : list pos := (λ c, (r, c)) <$> seq 0 9.
Definition column_group (c : nat) : list pos := (λ r, (r, c)) <$> seq 0 9.
Definition square_group (i j : nat) : list pos :=
  k ← seq 0 3; l ← seq 0 3; [((3 * i + k)%nat, (3 * j + l)%nat)].

Definition row_groups : list (list pos) := row_group <$> seq 0 9.
Definition column_groups : list (list pos) := column_group <$> seq 0 9.
Definition square_groups : list (list pos) :=
  i ← seq 0 3; j ← seq 0 3; [square_group i j].
Definition groups : list (list pos) :=
  row_groups ++ column_groups ++ square_groups.

(** Contents of a family of groups. *)
Definition view (s : grid) (gs : list (list pos)) : list (list Z) :=
  fmap (M:=list) (fmap (M:=list) (cell s)) gs.

(** The repeated-digit test of one group, and of the 27 groups. *)
Definition group_ok (s : grid) (g : list pos) : bool := _is_valid (cell s <$> g).
Definition valid_b (s : grid) : bool := forallb (group_ok s) groups.

Definition filled_b (s : grid) : bool :=
  forallb (λ value, negb (value =? 0)) (concat s).

Definition finished_b (s : grid) : bool := filled_b s && valid_b s.

(** Number of cells holding 0. *)
Definition count_zeros (s : grid) : nat :=
  length (filter (λ value, value = 0) (concat s)).

(** [s'] keeps every clue of [s]. *)
Definition extends (s s' : grid) : Prop :=
  ∀ p, inside p → cell s p ≠ 0 → cell s' p = cell s p.

(** The digits 1..9 whose placement at [p] leaves all 27 groups free of
    repeated digits. *)
Definition candidates (s : grid) (p : pos) : list Z :=
  filter (λ v, valid_b (upd s p v) = true) (Py.range 1 10).

(** All 81 positions in row-major order. *)
Definition all_pos : list pos := r ← seq 0 9; c ← seq 0 9; [(r, c)].

(** What a run of [solve] entered on [s] delivers: a normal return on a
    shaped grid which, on [None], is the grid at entry and, on success, is
    finished and keeps every clue of [s]. *)
Definition solve_post (s : grid) (o : outcome answer) : Prop :=
  ∃ a s', o = Return a s' ∧ shaped s' ∧
    match a with
    | NotSolvable => s' = s
    | Solved => finished_b s' = true ∧ extends s s'
    end.

(** [t] solves [s]: it is a finished 9x9 grid that keeps every clue of [s]
    and holds a digit of 1..9 wherever [s] is empty. *)
Definition solution (s t : grid) : Prop :=
  shaped t ∧ finished_b t = true ∧ extends s t ∧
  ∀ p, inside p → cell s p = 0 → 1 ≤ cell t p ≤ 9.

(** [s] can be solved: some grid solves it. *)
Definition solvable (s : grid) : Prop := ∃ t, solution s t.

(** Position of a subscript pair in 0..8. *)
Definition npos (row column : Z) : pos := (Z.to_nat row, Z.to_nat column).

(** The two read-only queries, and a sequence of them run in order. *)
Inductive query := QueryValid | QueryFinished.

Definition run_query (q : query) : M bool :=
  match q with
  | QueryValid => is_valid
  | QueryFinished => is_finished
  end.

Fixpoint run_queries (qs : list query) : M (list bool) :=
  match qs with
  | [] => ret []
  | q :: rest =>
      do b <- run_query q;
      do bs <- run_queries rest;
      ret (b :: bs)
  end.

(** A solved grid with three cells of its first row emptied. *)
Definition nearly_solved : grid :=
  [ [0; 5; 7; 6; 0; 9; 4; 3; 0];
    [2; 4; 9; 3; 5; 1; 7; 8; 6];
    [6; 8; 3; 2; 7; 4; 5; 1; 9];
    [3; 7; 5; 1; 9; 2; 8; 6; 4];
    [8; 6; 1; 4; 3; 5; 9; 2; 7];
    [4; 9; 2; 8; 6; 7; 1; 5; 3];
    [7; 3; 4; 5; 1; 6; 2; 9; 8];
    [9; 1; 6; 7; 2; 8; 3; 4; 5];
    [5; 2; 8; 9; 4; 3; 6; 7; 1] ].

Definition solved_grid : grid :=
  [ [1; 5; 7; 6; 8; 9; 4; 3; 2];
    [2; 4; 9; 3; 5; 1; 7; 8; 6];
    [6; 8; 3; 2; 7; 4; 5; 1; 9];
    [3; 7; 5; 1; 9; 2; 8; 6; 4];
    [8; 6; 1; 4; 3; 5; 9; 2; 7];
    [4; 9; 2; 8; 6; 7; 1; 5; 3];
    [7; 3; 4; 5; 1; 6; 2; 9; 8];
    [9; 1; 6; 7; 2; 8; 3; 4; 5];
    [5; 2; 8; 9; 4; 3; 6; 7; 1] ].

(** A valid grid without solution: the two empty cells of row 0 need 8 and
    9, and column 8 already holds both. *)
Definition dead_end : grid :=
  [ [1; 2; 3; 4; 5; 6; 7; 0; 0];
    [0; 0; 0; 0; 0; 0; 0; 0; 0];
    [0; 0; 0; 0; 0; 0; 0; 0; 0];
    [0; 0; 0; 0; 0; 0; 0; 0; 9];
    [0; 0; 0; 0; 0; 0; 0; 0; 8];
    [0; 0; 0; 0; 0; 0; 0; 0; 0];
    [0; 0; 0; 0; 0; 0; 0; 0; 0];
    [0; 0; 0; 0; 0; 0; 0; 0; 0];
    [0; 0; 0; 0; 0; 0; 0; 0; 0] ].

(** Two equal clues in column 0. *)
Definition column_clash : grid :=
  [ [5; 0; 0; 0; 0; 0; 0; 0; 0];
    [0; 0; 0; 0; 0; 0; 0; 0; 0];
    [0; 0; 0; 0; 0; 0; 0; 0; 0];
    [0; 0; 0; 0; 0; 0; 0; 0; 0];
    [5; 0; 0; 0; 0; 0; 0; 0; 0];
    [0; 0; 0; 0; 0; 0; 0; 0; 0];
    [0; 0; 0; 0; 0; 0; 0; 0; 0];
    [0; 0; 0; 0; 0; 0; 0; 0; 0];
    [0; 0; 0; 0; 0; 0; 0; 0; 0] ].

(** A board with a contradiction: two equal clues in one column, or more
    generally a failed [is_valid], or, most generally, no way at all to
    fill the empty cells with digits of 1..9 so that the board is
    finished. *)
Definition contradictory (s : grid) : Prop :=
  (∃ row1 row2 column value,
      0 ≤ row1 ≤ 8 ∧ 0 ≤ row2 ≤ 8 ∧ 0 ≤ column ≤ 8 ∧
      row1 ≠ row2 ∧ value ≠ 0 ∧
      get_value row1 column s = Return value s ∧
      get_value row2 column s = Return value s)
  ∨ is_valid s = Return false s
  ∨ ¬ solvable s.


(** The three partitions of the 81 cells, by subscripts. *)
Definition rows_distinct (s : grid) : Prop :=
  ∀ r c1 c2, (r < 9)%nat → (c1 < 9)%nat → (c2 < 9)%nat → c1 ≠ c2 →
    cell s (r, c1) ≠ 0 → cell s (r, c1) ≠ cell s (r, c2).

Definition columns_distinct (s : grid) : Prop :=
  ∀ c r1 r2, (c < 9)%nat → (r1 < 9)%nat → (r2 < 9)%nat → r1 ≠ r2 →
    cell s (r1, c) ≠ 0 → cell s (r1, c) ≠ cell s (r2, c).

Definition squares_distinct (s : grid) : Prop :=
  ∀ i j k l k' l',
    (i < 3)%nat → (j < 3)%nat →
    (k < 3)%nat → (l < 3)%nat → (k' < 3)%nat → (l' < 3)%nat →
    (k, l) ≠ (k', l') →
    cell s (3 * i + k, 3 * j + l)%nat ≠ 0 →
    cell s (3 * i + k, 3 * j + l)%nat ≠ cell s (3 * i + k', 3 * j + l')%nat.



(** Cell accesses read as bounds-checked: every subscript outside 0..8
    raises. *)
Definition bounds_checked (s : grid) : Prop :=
  ∀ row column,
    ¬ (0 ≤ row ≤ 8 ∧ 0 ≤ column ≤ 8) →
    get_value row column s = Raise IndexError s ∧
    ∀ v, set_value row column v s = Raise IndexError s.

(** Two equal clues in the last row, far from cell (0, 0). *)
Definition far_clash : grid :=
  [ [0; 0; 0; 0; 0; 0; 0; 0; 0];
    [0; 0; 0; 0; 0; 0; 0; 0; 0];
    [0; 0; 0; 0; 0; 0; 0; 0; 0];
    [0; 0; 0; 0; 0; 0; 0; 0; 0];
    [0; 0; 0; 0; 0; 0; 0; 0; 0];
    [0; 0; 0; 0; 0; 0; 0; 0; 0];
    [0; 0; 0; 0; 0; 0; 0; 0; 0];
    [0; 0; 0; 0; 0; 0; 0; 0; 0];
    [0; 0; 0; 0; 0; 0; 0; 5; 5] ].

(** The rendering in the words of the specification. *)
Definition cell_char (value : Z) : ascii :=
  if value =? 0 then "."%char else ascii_of_nat (48 + Z.to_nat value).

Definition render_triple (a b c : Z) : string :=
  String (cell_char a) (String " " (String (cell_char b)
    (String " " (String (cell_char c) EmptyString)))).

Definition render_row (row : list Z) : string :=
  match row with
  | [a; b; c; d; e; f; g; h; i] =>
      (render_triple a b c ++ " | " ++ render_triple d e f ++ " | "
         ++ render_triple g h i)%string
  | _ => EmptyString
  end.

Definition rule : string := "---------------------".

Definition newline : string := String "010" EmptyString.

Definition render (s : grid) : string :=
  match s with
  | [r0; r1; r2; r3; r4; r5; r6; r7; r8] =>
      Py.join newline
        [ render_row r0; render_row r1; render_row r2; rule;
          render_row r3; render_row r4; render_row r5; rule;
          render_row r6; render_row r7; render_row r8 ]
  | _ => EmptyString
  end.

(** Subscript of a position. *)
Definition zpos (p : pos) : Z * Z := (Z.of_nat p.1, Z.of_nat p.2).

(** Two different cells that share a row, a column or a 3x3 square. *)
Definition peer (p q : pos) : Prop :=
  p ≠ q ∧
  (p.1 = q.1 ∨ p.2 = q.2 ∨
   ((p.1 `div` 3)%nat = (q.1 `div` 3)%nat ∧
    (p.2 `div` 3)%nat = (q.2 `div` 3)%nat)).

(** The grid with every entry mapped through [f]. *)
Definition relabel (f : Z → Z) (s : grid) : grid :=
  fmap (M:=list) (fmap (M:=list) f) s.

(** [t] holds at (r, c) what [s] holds at (c, r). *)
Definition transposed (s t : grid) : Prop :=
  ∀ r c, (r < 9)%nat → (c < 9)%nat → cell t (r, c) = cell s (c, r).

(** A ragged grid: a valid first row and a second row that is too short. *)
Definition ragged : grid := [ [1; 2; 3; 4; 5; 6; 7; 8; 9]; [4; 5; 6] ].

(** Lexicographic order on lists of integers. *)
Inductive lex_le : list Z → list Z → Prop :=
| lex_le_nil l : lex_le [] l
| lex_le_lt x y l k : x < y → lex_le (x :: l) (y :: k)
| lex_le_eq x l k : lex_le l k → lex_le (x :: l) (x :: k).

(** What a run of [solve] entered on [s] delivers, in full: on success the
    solution that comes first when the grids are read row by row; [None]
    only when there is no solution, the grid being then as at entry. *)
Definition solve_full (s : grid) (o : outcome answer) : Prop :=
  ∃ a s', o = Return a s' ∧
    match a with
    | Solved =>
        solution s s' ∧ ∀ t, solution s t → lex_le (concat s') (concat t)
    | NotSolvable => s' = s ∧ ∀ t, ¬ solution s t
    end.

(** The digits a finished row, column or square holds, each once. *)
Definition one_to_nine : list Z := [1; 2; 3; 4; 5; 6; 7; 8; 9].

(** A puzzle with exactly two solutions: [solved_grid] with the digits 5 and
    7 emptied at the crossings of rows 1, 2 and columns 4, 6, and the
    solution that has them the other way round. *)
Definition twin_puzzle : grid :=
  upd (upd (upd (upd solved_grid (1, 4)%nat 0) (1, 6)%nat 0) (2, 4)%nat 0)
      (2, 6)%nat 0.

Definition twin_solution : grid :=
  upd (upd (upd (upd solved_grid (1, 4)%nat 7) (1, 6)%nat 5) (2, 4)%nat 5)
      (2, 6)%nat 7.

(** ** The board with its rows as objects

    [Board.__init__] keeps the list it is given, and nothing stops that
    list from holding one row object under several subscripts (as in
    [[[0] * 9] * 9]).  A write through one subscript then shows through the
    others.  Here the board is the list of references [self._board] holds
    together with the row each reference stands for; two equal entries of
    [rows] are one object. *)
Module Heap.

Record board := Board { rows : list nat; obj : nat → list Z }.

(** The grid as the methods read it: each reference followed. *)
Definition contents (b : board) : grid := obj b <$> rows b.

(** A board whose nine rows are nine objects of their own. *)
Definition fresh (s : grid) : board :=
  Board (seq 0 (length s)) (λ l, default [] (s !! l)).

(** The board [[[row] * n]]: one row object under [n] subscripts. *)
Definition shared (row : list Z) (n : nat) : board :=
  Board (replicate n 0%nat) (λ _, row).

Inductive result (A : Type) : Type :=
| Returned (a : A) (b : board)    (* normal return, board at exit *)
| Raised (e : exn) (b : board)    (* exception, board when it was raised *)
| NoFuel.                         (* recursion budget exhausted *)
Arguments Returned {A} a b.
Arguments Raised {A} e b.
Arguments NoFuel {A}.

Definition M (A : Type) : Type := board → result A.

Definition ret {A} (a : A) : M A := λ b, Returned a b.

Definition bind {A B} (m : M A) (k : A → M B) : M B :=
  λ b, match m b with
       | Returned a b' => k a b'
       | Raised e b' => Raised e b'
       | NoFuel => NoFuel
       end.

#[warnings="-notation-overridden"]
Notation "'do' x <- m ; k" := (bind m (λ x, k))
  (at level 10, x name, m at level 100, k at level 200).
#[warnings="-notation-overridden"]
Notation "'do_' m ; k" := (bind m (λ _, k))
  (at level 10, m at level 100, k at level 200).

(** A method that only reads the grid: it sees the rows through the
    references and leaves every row object as it is. *)
Definition reads {A} (m : grid → outcome A) : M A :=
  λ b, match m (contents b) with
       | Return a _ => Returned a b
       | Raise e _ => Raised e b
       | OutOfFuel => NoFuel
       end.

(** [self._board[row][column]] *)
Definition get_value (row column : Z) : M Z :=
  λ b, match Py.getitem (rows b) row with
       | None => Raised IndexError b
       | Some l =>
           match Py.getitem (obj b l) column with
           | None => Raised IndexError b
           | Some v => Returned v b
           end
       end.

(** [self._board[row][column] = value]: the row object is changed in
    place, whatever subscripts it sits under. *)
Definition set_value (row column value : Z) : M unit :=
  λ b, match Py.getitem (rows b) row with
       | None => Raised IndexError b
       | Some l =>
           match Py.setitem (obj b l) column value with
           | None => Raised IndexError b
           | Some r' => Returned tt (Board (rows b) (<[l:=r']> (obj b)))
           end
       end.

Definition is_valid : M bool := reads is_valid.

Definition is_finished : M bool := reads is_finished.

Fixpoint probe (row column : Z) (values acc : list Z) : M (list Z) :=
  match values with
  | [] => ret acc
  | value :: rest =>
      do_ set_value row column value;
      do ok <- is_valid;
      probe row column rest (if ok then acc ++ [value] else acc)
  end.

Definition valid_values (row column : Z) : M (list Z) :=
  do original_value <- get_value row column;
  do valid <- probe row column (Py.range 1 10) [];
  do_ set_value row column original_value;
  ret valid.

Fixpoint try_values (recurse : M answer) (row column : Z) (values : list Z)
  : M answer :=
  match values with
  | [] => ret NotSolvable
  | value :: rest =>
      do_ set_value row column value;
      do r <- recurse;
      match r with
      | Solved => ret Solved
      | NotSolvable =>
          do_ set_value row column 0;
          try_values recurse row column rest
      end
  end.

Fixpoint scan (cells : list (Z * Z)) (body : Z → Z → M answer) : M answer :=
  match cells with
  | [] => ret NotSolvable
  | (row, column) :: rest =>
      do v <- get_value row column;
      if v =? 0 then body row column else scan rest body
  end.

Fixpoint solve_fuel (fuel : nat) : M answer :=
  match fuel with
  | O => λ _, NoFuel
  | S fuel' =>
      do finished <- is_finished;
      if finished then ret Solved
      else scan cells (λ row column,
             do values <- valid_values row column;
             try_values (solve_fuel fuel') row column values)
  end.

Definition solve : M answer := solve_fuel 82.

End Heap.

(** A run on the grid and a run on the board with its row objects agree:
    same answer or exception, same references, and the grid read through
    them is the grid of the first run. *)
Definition agrees {A} (b : Heap.board) (o : outcome A) (h : Heap.result A)
  : Prop :=
  match o, h with
  | Return a s, Heap.Returned a' b' =>
      a' = a ∧ Heap.rows b' = Heap.rows b ∧ Heap.contents b' = s
  | Raise e s, Heap.Raised e' b' =>
      e' = e ∧ Heap.rows b' = Heap.rows b ∧ Heap.contents b' = s
  | OutOfFuel, Heap.NoFuel => True
  | _, _ => False
  end.

(** [h] does on every board with pairwise distinct row objects what [m]
    does on its grid. *)
Definition simulates {A} (m : M A) (h : Heap.M A) : Prop :=
  ∀ b, NoDup (Heap.rows b) → agrees b (m (Heap.contents b)) (h b).

(** Every row object holds in [b'] what it holds in [b], under the same
    subscripts. *)
Definition unchanged (b b' : Heap.board) : Prop :=
  Heap.rows b' = Heap.rows b ∧ ∀ l, Heap.obj b' l = Heap.obj b l.

(** The board after the row object [l] got [v] at column [c]. *)
Definition written (b : Heap.board) (l c : nat) (v : Z) : Heap.board :=
  Heap.Board (Heap.rows b) (<[l:=<[c:=v]> (Heap.obj b l)]> (Heap.obj b)).

(** Two subscripts of [b] hold one row object. *)
Definition shares_row (b : Heap.board) : Prop :=
  ∃ i j l, i ≠ j ∧ Heap.rows b !! i = Some l ∧ Heap.rows b !! j = Some l.

(** Number of entries of a row holding 0. *)
Definition zeros (row : list Z) : nat :=
  length (filter (λ value, value = 0) row).

(** Case analysis of a list of length 9, and of a shaped grid, into its
    entries. *)
Ltac explode_list l H :=
  do 9 (destruct l as [|? l]; [by simpl in H|]);
  destruct l; [|by simpl in H]; clear H.

Ltac explode_grid s Hs :=
  let Hlen := fresh "Hlen" in
  let Hrows := fresh "Hrows" in
  destruct Hs as [Hlen Hrows];
  explode_list s Hlen;
  repeat match goal with
         | H : Forall _ (_ :: _) |- _ =>
             let Hr := fresh "Hr" in
             apply Forall_cons in H as [Hr H]
         end;
  repeat match goal with
         | H : length ?row = 9%nat |- _ => explode_list row H
         end.

(** The same case analysis, closing the impossible lengths by arithmetic
    only. *)
Ltac split_list9 l H :=
  do 9 (destruct l as [|? l]; [exfalso; simpl in H; lia|]);
  destruct l; [|exfalso; simpl in H; lia]; clear H.

Ltac split_grid81 s Hs :=
  let Hlen := fresh "Hlen" in
  let Hrows := fresh "Hrows" in
  destruct Hs as [Hlen Hrows];
  split_list9 s Hlen;
  repeat match goal with
         | H : Forall _ (_ :: _) |- _ =>
             let Hr := fresh "Hr" in
             apply Forall_cons in H as [Hr H]
         end;
  repeat match goal with
         | H : length ?row = 9%nat |- _ => split_list9 row H
         end.

(** * Proofs *)

(** ** Python subscripts *)

Lemma index_nonneg {A} (l : list A) (i : Z) :
  0 ≤ i < Z.of_nat (length l) → Py.index l i = Some (Z.to_nat i).
Proof. intros H. unfold Py.index. by rewrite bool_decide_eq_true_2. Qed.

Lemma index_negative {A} (l : list A) (i : Z) :
  - Z.of_nat (length l) ≤ i < 0 →
  Py.index l i = Some (Z.to_nat (i + Z.of_nat (length l))).
Proof.
  intros H. unfold Py.index.
  rewrite bool_decide_eq_false_2 by lia. by rewrite bool_decide_eq_true_2.
Qed.

Lemma index_outside {A} (l : list A) (i : Z) :
  i < - Z.of_nat (length l) ∨ Z.of_nat (length l) ≤ i → Py.index l i = None.
Proof.
  intros H. unfold Py.index.
  rewrite !bool_decide_eq_false_2 by lia. done.
Qed.

Lemma index_lt {A} (l : list A) (i : Z) (k : nat) :
  Py.index l i = Some k → (k < length l)%nat.
Proof.
  unfold Py.index. repeat case_bool_decide; intros; simplify_eq; lia.
Qed.

Lemma getitem_of_nat {A} (l : list A) (k : nat) :
  Py.getitem l (Z.of_nat k) = l !! k.
Proof.
  unfold Py.getitem. destruct (decide (k < length l)%nat) as [Hlt|Hge].
  - rewrite index_nonneg by lia. by rewrite Nat2Z.id.
  - rewrite index_outside by lia. symmetry. apply lookup_ge_None. lia.
Qed.

Lemma setitem_of_nat {A} (l : list A) (k : nat) (x : A) :
  (k < length l)%nat → Py.setitem l (Z.of_nat k) x = Some (<[k:=x]> l).
Proof.
  intros Hlt. unfold Py.setitem. rewrite index_nonneg by lia.
  by rewrite Nat2Z.id.
Qed.

(** ** Cells of a shaped grid *)

Lemma shaped_lookup s r :
  shaped s → (r < 9)%nat → ∃ row, s !! r = Some row ∧ length row = 9%nat.
Proof.
  intros [Hlen Hrows] Hr.
  destruct (lookup_lt_is_Some_2 s r) as [row Hrow]; [lia|].
  exists row. split; [done|]. by eapply Forall_lookup_1 in Hrows.
Qed.

Lemma shaped_upd s p v : shaped s → shaped (upd s p v).
Proof.
  intros [Hlen Hrows]. unfold upd. destruct (s !! p.1) as [row|] eqn:Hrow; [|done].
  split; [by rewrite length_insert|].
  apply Forall_insert; [done|]. rewrite length_insert.
  by eapply Forall_lookup_1 in Hrows.
Qed.

Lemma cell_upd_eq s p v : shaped s → inside p → cell (upd s p v) p = v.
Proof.
  intros Hs [Hr Hc]. destruct (shaped_lookup s p.1 Hs Hr) as (row & Hrow & Hlen).
  unfold cell, upd. rewrite Hrow.
  rewrite list_lookup_insert_eq by (destruct Hs; lia).
  by rewrite list_lookup_insert_eq by lia.
Qed.

Lemma cell_upd_ne s p q v : p ≠ q → cell (upd s p v) q = cell s q.
Proof.
  intros Hne. unfold cell, upd. destruct (s !! p.1) as [row|] eqn:Hrow; [|done].
  destruct (decide (p.1 = q.1)) as [E|E].
  - rewrite <- E.
    destruct (decide (p.1 < length s)%nat).
    + rewrite list_lookup_insert_eq by done. rewrite Hrow.
      rewrite list_lookup_insert_ne; [done|].
      intros E2. apply Hne. destruct p, q; simpl in *; congruence.
    + rewrite list_insert_ge by lia. by rewrite Hrow.
  - by rewrite list_lookup_insert_ne.
Qed.

Lemma upd_upd s p v w : upd (upd s p v) p w = upd s p w.
Proof.
  unfold upd at 2 3. destruct (s !! p.1) as [row|] eqn:Hrow.
  - unfold upd. rewrite list_lookup_insert_eq by (by eapply lookup_lt_Some).
    by rewrite list_insert_insert_eq, list_insert_insert_eq.
  - unfold upd. by rewrite Hrow.
Qed.

Lemma upd_cell s p : upd s p (cell s p) = s.
Proof.
  unfold upd, cell. destruct (s !! p.1) as [row|] eqn:Hrow; [|done].
  apply list_insert_id. rewrite Hrow. f_equal.
  destruct (row !! p.2) as [x|] eqn:Hx; simpl.
  - symmetry. by apply list_insert_id.
  - symmetry. apply list_insert_ge. by apply lookup_ge_None.
Qed.

Lemma upd_same s p v : cell s p = v → upd s p v = s.
Proof. intros <-. apply upd_cell. Qed.

(** [get_value] and [set_value] at subscripts 0..8. *)
Lemma get_value_inside s p :
  shaped s → inside p →
  get_value (Z.of_nat p.1) (Z.of_nat p.2) s = Return (cell s p) s.
Proof.
  intros Hs [Hr Hc]. destruct (shaped_lookup s p.1 Hs Hr) as (row & Hrow & Hlen).
  unfold get_value, cell. rewrite !getitem_of_nat, Hrow, getitem_of_nat.
  destruct (lookup_lt_is_Some_2 row p.2) as [x Hx]; [lia|]. by rewrite Hx.
Qed.

Lemma set_value_inside s p v :
  shaped s → inside p →
  set_value (Z.of_nat p.1) (Z.of_nat p.2) v s = Return tt (upd s p v).
Proof.
  intros Hs [Hr Hc]. destruct (shaped_lookup s p.1 Hs Hr) as (row & Hrow & Hlen).
  unfold set_value, upd.
  rewrite index_nonneg by (destruct Hs; lia). rewrite Nat2Z.id.
  rewrite getitem_of_nat, Hrow. by rewrite setitem_of_nat by lia.
Qed.

(** ** The repeated-digit test *)

Lemma size_list_to_set_le (l : list Z) :
  (size (list_to_set l : gset Z) ≤ length l)%nat.
Proof.
  induction l as [|x l IH].
  - by rewrite list_to_set_nil, size_empty.
  - rewrite list_to_set_cons, size_union_alt, size_singleton. simpl.
    pose proof (subseteq_size (list_to_set l ∖ {[x]}) (list_to_set l : gset Z)) as Hsub.
    assert ((list_to_set l : gset Z) ∖ {[x]} ⊆ list_to_set l) as Hdiff
      by set_solver.
    specialize (Hsub Hdiff). lia.
Qed.

Lemma size_list_to_set_NoDup (l : list Z) :
  size (list_to_set l : gset Z) = length l ↔ NoDup l.
Proof.
  split; [|apply size_list_to_set].
  induction l as [|x l IH]; intros Hsize; [constructor|].
  rewrite list_to_set_cons in Hsize. simpl in Hsize.
  pose proof (size_list_to_set_le l) as Hle.
  destruct (decide (x ∈ l)) as [Hin|Hnin].
  - assert ({[x]} ∪ list_to_set l = (list_to_set l : gset Z)) as E by set_solver.
    rewrite E in Hsize. lia.
  - rewrite size_union, size_singleton in Hsize by set_solver.
    constructor; [done|]. apply IH. lia.
Qed.

Lemma _is_valid_NoDup (values : list Z) :
  _is_valid values = true ↔ NoDup (filter (λ value, value ≠ 0) values).
Proof.
  unfold _is_valid. rewrite Nat.eqb_eq. apply size_list_to_set_NoDup.
Qed.

(** A group passes iff no non-zero content occurs at two of its positions. *)
Lemma NoDup_filter_fmap (f : pos → Z) (g : list pos) :
  NoDup g →
  NoDup (filter (λ value, value ≠ 0) (f <$> g)) ↔
  ∀ p q, p ∈ g → q ∈ g → p ≠ q → f p ≠ 0 → f p ≠ f q.
Proof.
  induction g as [|a g IH]; intros Hnd.
  { split; [|constructor]. intros _ p q Hp. by apply elem_of_nil in Hp. }
  apply NoDup_cons in Hnd as [Ha Hnd]. specialize (IH Hnd).
  rewrite fmap_cons, filter_cons. split.
  - intros Hfilter p q Hp Hq Hpq Hfp.
    apply elem_of_cons in Hp as [->|Hp]; apply elem_of_cons in Hq as [->|Hq];
      try done.
    + rewrite decide_True in Hfilter by done.
      apply NoDup_cons in Hfilter as [Hfa _]. intros E. apply Hfa.
      apply list_elem_of_filter. split; [congruence|].
      rewrite E. by apply list_elem_of_fmap_2.
    + case_decide as Hfa.
      * apply NoDup_cons in Hfilter as [Hfa' _]. intros E. apply Hfa'.
        apply list_elem_of_filter. split; [congruence|].
        rewrite <- E. by apply list_elem_of_fmap_2.
      * congruence.
    + case_decide as Hfa.
      * apply NoDup_cons in Hfilter as [_ Hrest]. by apply IH.
      * by apply IH.
  - intros Hpair.
    assert (NoDup (filter (λ value, value ≠ 0) (f <$> g))) as Hrest.
    { apply IH. intros p q Hp Hq. apply Hpair; by apply list_elem_of_further. }
    case_decide as Hfa; [|done].
    apply NoDup_cons. split; [|done].
    intros Hin. apply list_elem_of_filter in Hin as [_ Hin].
    apply list_elem_of_fmap in Hin as (q & E & Hq).
    apply (Hpair a q); [apply list_elem_of_here|by apply list_elem_of_further| |done|done].
    intros ->. done.
Qed.

Lemma groups_NoDup : Forall NoDup groups.
Proof. apply (bool_decide_unpack (Forall NoDup groups)). by vm_compute. Qed.

Lemma group_ok_pairwise s g :
  g ∈ groups →
  group_ok s g = true ↔
  ∀ p q, p ∈ g → q ∈ g → p ≠ q → cell s p ≠ 0 → cell s p ≠ cell s q.
Proof.
  intros Hg. unfold group_ok. rewrite _is_valid_NoDup.
  apply NoDup_filter_fmap.
  pose proof groups_NoDup as H. rewrite Forall_forall in H. by apply H.
Qed.

Lemma valid_b_pairwise s :
  valid_b s = true ↔
  ∀ g p q, g ∈ groups → p ∈ g → q ∈ g → p ≠ q → cell s p ≠ 0 →
           cell s p ≠ cell s q.
Proof.
  unfold valid_b. rewrite forallb_forall. split.
  - intros H g p q Hg. apply group_ok_pairwise; [done|].
    apply H. by apply list_elem_of_In.
  - intros H g Hg. apply list_elem_of_In in Hg.
    apply group_ok_pairwise; [done|]. intros p q. by apply H.
Qed.

(** ** The derived views of a shaped grid *)

Lemma rows_view s :
  shaped s → s = view s row_groups.
Proof. intros Hs. explode_grid s Hs. reflexivity. Qed.

Lemma columns_view s :
  shaped s → columns_of s = Some (view s column_groups).
Proof. intros Hs. explode_grid s Hs. reflexivity. Qed.

Lemma squares_view s :
  shaped s → squares_of s = Some (view s square_groups).
Proof. intros Hs. explode_grid s Hs. reflexivity. Qed.

Lemma forallb_fmap {A B} (f : A → B) (P : B → bool) (l : list A) :
  forallb P (f <$> l) = forallb (λ x, P (f x)) l.
Proof. induction l as [|x l IH]; [done|]. cbn. by f_equal. Qed.

Lemma forallb_view s gs :
  forallb _is_valid (view s gs) = forallb (group_ok s) gs.
Proof. unfold view. by rewrite forallb_fmap. Qed.

Lemma bind_Return {A B} (m : M A) (k : A → M B) s a s' :
  m s = Return a s' → bind m k s = k a s'.
Proof. unfold bind. by intros ->. Qed.

Lemma _is_valid_rows_shaped s :
  shaped s → _is_valid_rows s = Return (forallb (group_ok s) row_groups) s.
Proof.
  intros Hs. unfold _is_valid_rows.
  by rewrite (rows_view s Hs) at 1; rewrite forallb_view.
Qed.

Lemma _is_valid_columns_shaped s :
  shaped s →
  _is_valid_columns s = Return (forallb (group_ok s) column_groups) s.
Proof.
  intros Hs. unfold _is_valid_columns, _get_columns.
  erewrite bind_Return; [|unfold reading; by rewrite (columns_view s Hs)].
  unfold ret. by rewrite forallb_view.
Qed.

Lemma _is_valid_squares_shaped s :
  shaped s →
  _is_valid_squares s = Return (forallb (group_ok s) square_groups) s.
Proof.
  intros Hs. unfold _is_valid_squares, _get_squares.
  erewrite bind_Return; [|unfold reading; by rewrite (squares_view s Hs)].
  unfold ret. by rewrite forallb_view.
Qed.

Lemma is_valid_shaped s : shaped s → is_valid s = Return (valid_b s) s.
Proof.
  intros Hs. unfold is_valid, valid_b, groups. rewrite !forallb_app.
  erewrite bind_Return; [|by apply _is_valid_rows_shaped].
  destruct (forallb (group_ok s) row_groups); [|done].
  erewrite bind_Return; [|by apply _is_valid_columns_shaped].
  destruct (forallb (group_ok s) column_groups); [|done].
  by apply _is_valid_squares_shaped.
Qed.

Lemma is_finished_shaped s :
  shaped s → is_finished s = Return (finished_b s) s.
Proof.
  intros Hs. unfold is_finished, finished_b.
  erewrite bind_Return; [|reflexivity]. fold (filled_b s).
  destruct (filled_b s); [|done]. by apply is_valid_shaped.
Qed.

(** ** valid_values *)

Lemma probe_shaped p values :
  ∀ acc s, shaped s → inside p →
  probe (Z.of_nat p.1) (Z.of_nat p.2) values acc s =
  Return (acc ++ filter (λ v, valid_b (upd s p v) = true) values)
         (match last values with Some w => upd s p w | None => s end).
Proof.
  induction values as [|v rest IH]; intros acc s Hs Hp.
  { simpl. unfold ret. by rewrite app_nil_r. }
  cbn [probe].
  erewrite bind_Return; [|by apply set_value_inside].
  erewrite bind_Return; [|by apply is_valid_shaped, shaped_upd].
  rewrite IH by (by try apply shaped_upd).
  rewrite last_cons, filter_cons.
  f_equal.
  - rewrite (list_filter_iff _ (λ w, valid_b (upd s p w) = true)); last first.
    { intros w. by rewrite upd_upd. }
    destruct (valid_b (upd s p v)) eqn:E.
    + rewrite decide_True by done. by rewrite <- app_assoc.
    + rewrite decide_False by done. done.
  - destruct (last rest); [|done]. by rewrite upd_upd.
Qed.

Lemma valid_values_shaped s p :
  shaped s → inside p →
  valid_values (Z.of_nat p.1) (Z.of_nat p.2) s = Return (candidates s p) s.
Proof.
  intros Hs Hp. unfold valid_values.
  erewrite bind_Return; [|by apply get_value_inside].
  erewrite bind_Return; [|by apply probe_shaped].
  change (last (Py.range 1 10)) with (Some 9). cbn beta iota.
  erewrite bind_Return; [|apply set_value_inside; [by apply shaped_upd|done]].
  unfold ret. by rewrite upd_upd, upd_cell.
Qed.

Lemma candidates_range s p v : v ∈ candidates s p → 1 ≤ v ≤ 9.
Proof.
  unfold candidates, Py.range. intros H.
  apply list_elem_of_filter in H as [_ H]. apply elem_of_seqZ in H. lia.
Qed.

Lemma candidates_spec s p v :
  v ∈ candidates s p ↔ 1 ≤ v ≤ 9 ∧ valid_b (upd s p v) = true.
Proof.
  unfold candidates, Py.range. rewrite list_elem_of_filter, elem_of_seqZ.
  split; intros [? ?]; split; try done; lia.
Qed.

Lemma StronglySorted_filter {A} (R : A → A → Prop) (P : A → Prop)
    `{∀ x, Decision (P x)} (l : list A) :
  StronglySorted R l → StronglySorted R (filter P l).
Proof.
  induction 1 as [|x l Hl IH Hx]; [constructor|].
  rewrite filter_cons. case_decide; [|done].
  constructor; [done|].
  apply Forall_forall. intros y Hy.
  apply list_elem_of_filter in Hy as [_ Hy].
  rewrite Forall_forall in Hx. by apply Hx.
Qed.

Lemma candidates_sorted s p : StronglySorted Z.lt (candidates s p).
Proof.
  apply StronglySorted_filter.
  repeat (constructor; [|repeat (constructor; [lia|]); constructor]).
  constructor.
Qed.

Lemma candidates_length s p : (length (candidates s p) ≤ 9)%nat.
Proof. unfold candidates. by rewrite length_filter. Qed.

(** ** Empty cells *)

Lemma cell_lookup s p :
  shaped s → inside p →
  ∃ row, s !! p.1 = Some row ∧ row !! p.2 = Some (cell s p).
Proof.
  intros Hs [Hr Hc]. destruct (shaped_lookup s p.1 Hs Hr) as (row & Hrow & Hlen).
  exists row. split; [done|]. unfold cell. rewrite Hrow.
  destruct (lookup_lt_is_Some_2 row p.2) as [x Hx]; [lia|]. by rewrite Hx.
Qed.

Lemma zeros_insert (row : list Z) (c : nat) (v : Z) :
  row !! c = Some 0 → v ≠ 0 →
  S (length (filter (λ value, value = 0) (<[c:=v]> row))) =
  length (filter (λ value, value = 0) row).
Proof.
  intros Hc Hv.
  rewrite insert_take_drop by (by eapply lookup_lt_Some).
  rewrite <- (take_drop_middle row c 0 Hc) at 3.
  rewrite !filter_app, !filter_cons, !length_app.
  rewrite decide_False by done. rewrite decide_True by done. simpl. lia.
Qed.

Lemma count_zeros_upd s p v :
  shaped s → inside p → cell s p = 0 → v ≠ 0 →
  S (count_zeros (upd s p v)) = count_zeros s.
Proof.
  intros Hs Hp Hz Hv. destruct (cell_lookup s p Hs Hp) as (row & Hrow & Hc).
  rewrite Hz in Hc. unfold count_zeros, upd. rewrite Hrow.
  rewrite insert_take_drop by (by eapply lookup_lt_Some).
  rewrite <- (take_drop_middle s p.1 row Hrow) at 3.
  rewrite !concat_app, !concat_cons, !filter_app, !length_app.
  rewrite <- (zeros_insert row p.2 v Hc Hv). lia.
Qed.

Lemma count_zeros_bound s : shaped s → (count_zeros s ≤ 81)%nat.
Proof.
  intros Hs. unfold count_zeros. etransitivity; [apply length_filter|].
  explode_grid s Hs. simpl. lia.
Qed.

Lemma all_pos_inside : Forall inside all_pos.
Proof. apply (bool_decide_unpack (Forall inside all_pos)). by vm_compute. Qed.

Lemma cells_all_pos : cells = zpos <$> all_pos.
Proof. reflexivity. Qed.

Lemma inside_all_pos p : inside p → p ∈ all_pos.
Proof.
  destruct p as [r c]. intros [Hr Hc]. simpl in *. unfold all_pos.
  apply list_elem_of_bind. exists r. split; [|apply elem_of_seq; lia].
  apply list_elem_of_bind. exists c. split; [|apply elem_of_seq; lia].
  apply list_elem_of_here.
Qed.

Lemma groups_inside : Forall (Forall inside) groups.
Proof.
  apply (bool_decide_unpack (Forall (Forall inside) groups)). by vm_compute.
Qed.

(** ** The scan for the first empty cell *)

Lemma scan_shaped (P : outcome answer → Prop) body s ps :
  shaped s → Forall inside ps →
  (Forall (λ p, cell s p ≠ 0) ps → P (Return NotSolvable s)) →
  (∀ p, p ∈ ps → cell s p = 0 → P (body (Z.of_nat p.1) (Z.of_nat p.2) s)) →
  P (scan (zpos <$> ps) body s).
Proof.
  intros Hs. induction ps as [|p ps IH]; intros Hin Hend Hbody.
  { apply Hend. constructor. }
  apply Forall_cons in Hin as [Hp Hin].
  rewrite fmap_cons. unfold zpos at 1. cbn [scan].
  erewrite bind_Return; [|by apply get_value_inside].
  destruct (Z.eqb_spec (cell s p) 0) as [E|E].
  - apply Hbody; [apply list_elem_of_here|done].
  - apply IH; [done| |].
    + intros Hrest. apply Hend. by constructor.
    + intros q Hq. apply Hbody. by apply list_elem_of_further.
Qed.

(** ** The candidate loop and the recursion *)

Lemma extends_refl s : extends s s.
Proof. by intros p _ _. Qed.

Lemma extends_upd s s' p v :
  cell s p = 0 → extends (upd s p v) s' → extends s s'.
Proof.
  intros Hz Hext q Hq Hne.
  assert (p ≠ q) as Hpq by (intros ->; done).
  rewrite <- (cell_upd_ne s p q v Hpq). apply Hext; [done|].
  by rewrite cell_upd_ne.
Qed.

Lemma solve_post_fail s : shaped s → solve_post s (Return NotSolvable s).
Proof. intros Hs. exists NotSolvable, s. split; [done|]. by split. Qed.

Lemma solve_post_success s s' :
  shaped s' → finished_b s' = true → extends s s' →
  solve_post s (Return Solved s').
Proof. intros Hs Hfin Hext. exists Solved, s'. split; [done|]. by split. Qed.

Lemma try_values_post recurse s p values :
  shaped s → inside p → cell s p = 0 →
  (∀ v, v ∈ values → solve_post (upd s p v) (recurse (upd s p v))) →
  solve_post s (try_values recurse (Z.of_nat p.1) (Z.of_nat p.2) values s).
Proof.
  intros Hs Hp Hz. induction values as [|v rest IH]; intros Hrec.
  { by apply solve_post_fail. }
  cbn [try_values].
  erewrite bind_Return; [|by apply set_value_inside].
  destruct (Hrec v) as (a & s' & Hrun & Hs' & Ha); [apply list_elem_of_here|].
  erewrite bind_Return; [|exact Hrun].
  destruct a.
  - destruct Ha as [Hfin Hext].
    apply solve_post_success; [done..|]. by eapply extends_upd.
  - subst s'.
    erewrite bind_Return; [|by apply set_value_inside].
    rewrite upd_upd, (upd_same s p 0 Hz).
    apply IH. intros w Hw. apply Hrec. by apply list_elem_of_further.
Qed.

Lemma solve_fuel_post n :
  ∀ s, shaped s → (count_zeros s < n)%nat → solve_post s (solve_fuel n s).
Proof.
  induction n as [|n IH]; intros s Hs Hn; [lia|].
  cbn [solve_fuel].
  erewrite bind_Return; [|by apply is_finished_shaped].
  destruct (finished_b s) eqn:Hfin.
  { apply solve_post_success; [done..|]. apply extends_refl. }
  rewrite cells_all_pos.
  apply scan_shaped; [done|apply all_pos_inside| |].
  { intros _. by apply solve_post_fail. }
  intros p Hp Hz.
  assert (inside p) as Hin.
  { pose proof all_pos_inside as H. rewrite Forall_forall in H. by apply H. }
  erewrite bind_Return; [|by apply valid_values_shaped].
  apply try_values_post; [done..|].
  intros v Hv. apply IH; [by apply shaped_upd|].
  apply candidates_range in Hv.
  pose proof (count_zeros_upd s p v Hs Hin Hz). lia.
Qed.

(** More fuel never changes a run that did not exhaust its fuel. *)
Lemma try_values_mono (rec1 rec2 : M answer) row column values :
  (∀ s, rec1 s ≠ OutOfFuel → rec2 s = rec1 s) →
  ∀ s, try_values rec1 row column values s ≠ OutOfFuel →
       try_values rec2 row column values s = try_values rec1 row column values s.
Proof.
  intros Hrec. induction values as [|v rest IH]; intros s; [done|].
  cbn [try_values]. unfold bind.
  destruct (set_value row column v s) as [[] s1|e s1|]; [|done..].
  destruct (rec1 s1) as [a s2|e s2|] eqn:E1; intros H; [| |done].
  - rewrite Hrec, E1 by congruence. destruct a; [done|].
    destruct (set_value row column 0 s2) as [[] s3|e s3|]; [|done..].
    by apply IH.
  - by rewrite Hrec, E1 by congruence.
Qed.

Lemma scan_mono (body1 body2 : Z → Z → M answer) cs :
  (∀ r c s, body1 r c s ≠ OutOfFuel → body2 r c s = body1 r c s) →
  ∀ s, scan cs body1 s ≠ OutOfFuel → scan cs body2 s = scan cs body1 s.
Proof.
  intros Hbody. induction cs as [|[r c] cs IH]; intros s; [done|].
  cbn [scan]. unfold bind.
  destruct (get_value r c s) as [v s1|e s1|]; [|done..].
  destruct (v =? 0); [apply Hbody|apply IH].
Qed.

Lemma solve_fuel_unfold n s :
  solve_fuel (S n) s =
  match is_finished s with
  | Return true s1 => Return Solved s1
  | Return false s1 =>
      scan cells (λ row column,
        do values <- valid_values row column;
        try_values (solve_fuel n) row column values) s1
  | Raise e s1 => Raise e s1
  | OutOfFuel => OutOfFuel
  end.
Proof.
  cbn [solve_fuel]. unfold bind at 1.
  by destruct (is_finished s) as [[] s1|e s1|].
Qed.

Lemma solve_fuel_S n :
  ∀ s, solve_fuel n s ≠ OutOfFuel → solve_fuel (S n) s = solve_fuel n s.
Proof.
  induction n as [|n IH]; intros s; [done|].
  rewrite (solve_fuel_unfold (S n)), (solve_fuel_unfold n).
  destruct (is_finished s) as [[] s1|e s1|]; [done| |done..].
  apply scan_mono. intros r c s2. unfold bind.
  destruct (valid_values r c s2) as [vs s3|e s3|]; [|done..].
  by apply try_values_mono.
Qed.

Lemma solve_fuel_mono n m s :
  (n ≤ m)%nat → solve_fuel n s ≠ OutOfFuel → solve_fuel m s = solve_fuel n s.
Proof.
  induction 1 as [|m Hle IH]; intros H; [done|].
  rewrite solve_fuel_S; rewrite IH; done.
Qed.

(** On a 9x9 grid the result of [solve] is that of any run with enough fuel. *)
Lemma solve_post_shaped s : shaped s → solve_post s (solve s).
Proof.
  intros Hs. apply solve_fuel_post; [done|].
  pose proof (count_zeros_bound s Hs). lia.
Qed.

Lemma solve_fuel_solve n s :
  shaped s → solve_fuel n s ≠ OutOfFuel → solve_fuel n s = solve s.
Proof.
  intros Hs Hn. destruct (solve_post_shaped s Hs) as (a & s' & Hrun & _).
  destruct (Nat.le_ge_cases n 82) as [Hle|Hge].
  - symmetry. by apply solve_fuel_mono.
  - apply solve_fuel_mono; [done|]. unfold solve in Hrun. by rewrite Hrun.
Qed.

(** ** Construction and subscripts 0..8 *)

Lemma Board_init_inr board s :
  Board_init board = inr s → s = board ∧ shaped s ∧ digits s.
Proof.
  unfold Board_init.
  destruct (Nat.eqb_spec (length board) 9) as [Hlen|]; [|done]. simpl.
  destruct (forallb (λ row, Nat.eqb (length row) 9) board) eqn:Hrows; [|done].
  simpl.
  destruct (forallb (λ value, (0 <=? value) && (value <=? 9)) (concat board))
    eqn:Hvals; [|done].
  simpl. intros [= <-]. split; [done|]. split; [split; [done|]|].
  - apply Forall_forall. intros row Hrow.
    rewrite forallb_forall in Hrows. apply Nat.eqb_eq, Hrows.
    by apply list_elem_of_In.
  - apply Forall_forall. intros row Hrow. apply Forall_forall. intros v Hv.
    rewrite forallb_forall in Hvals.
    assert (In v (concat board)) as Hin.
    { apply in_concat. exists row. by split; apply list_elem_of_In. }
    apply Hvals in Hin. lia.
Qed.

Lemma npos_inside row column :
  0 ≤ row ≤ 8 → 0 ≤ column ≤ 8 → inside (npos row column).
Proof. intros. split; simpl; lia. Qed.

Lemma get_value_Z s row column :
  shaped s → 0 ≤ row ≤ 8 → 0 ≤ column ≤ 8 →
  get_value row column s = Return (cell s (npos row column)) s.
Proof.
  intros Hs Hr Hc.
  rewrite <- (get_value_inside s (npos row column)) by (by try apply npos_inside).
  simpl. by rewrite !Z2Nat.id by lia.
Qed.

Lemma set_value_Z s row column v :
  shaped s → 0 ≤ row ≤ 8 → 0 ≤ column ≤ 8 →
  set_value row column v s = Return tt (upd s (npos row column) v).
Proof.
  intros Hs Hr Hc.
  rewrite <- (set_value_inside s (npos row column)) by (by try apply npos_inside).
  simpl. by rewrite !Z2Nat.id by lia.
Qed.

Lemma valid_values_Z s row column :
  shaped s → 0 ≤ row ≤ 8 → 0 ≤ column ≤ 8 →
  valid_values row column s = Return (candidates s (npos row column)) s.
Proof.
  intros Hs Hr Hc.
  rewrite <- (valid_values_shaped s (npos row column))
    by (by try apply npos_inside).
  simpl. by rewrite !Z2Nat.id by lia.
Qed.

Lemma shaped_nearly_solved : shaped nearly_solved.
Proof. split; [reflexivity|]. by repeat constructor. Qed.

Lemma shaped_dead_end : shaped dead_end.
Proof. split; [reflexivity|]. by repeat constructor. Qed.

Lemma shaped_main_board : shaped main_board.
Proof. split; [reflexivity|]. by repeat constructor. Qed.

(** * The solver *)

(** C1. A board that passes the checks of [Board.__init__] and the
    [is_valid] assertion of [main], and on which [solve] returns the board,
    is then finished: all 81 cells are non-zero, [is_valid] holds, so
    [is_finished] answers true; and every cell that held a non-zero digit
    at entry holds the same digit in the result. *)
Theorem solve_success_finished_keeps_clues (board s s' : grid) :
  Board_init board = inr s →
  is_valid s = Return true s →
  solve s = Return Solved s' →
  all_filled s' = Return true s' ∧
  is_valid s' = Return true s' ∧
  is_finished s' = Return true s' ∧
  ∀ row column value,
    0 ≤ row ≤ 8 → 0 ≤ column ≤ 8 →
    get_value row column s = Return value s → value ≠ 0 →
    get_value row column s' = Return value s'.
Proof.
  intros Hinit _ Hrun. apply Board_init_inr in Hinit as (_ & Hs & _).
  destruct (solve_post_shaped s Hs) as (a & s2 & Hrun2 & Hs2 & Ha).
  rewrite Hrun in Hrun2. injection Hrun2 as <- <-.
  destruct Ha as [Hfin Hext].
  pose proof Hfin as Hfin2. unfold finished_b in Hfin2.
  apply andb_true_iff in Hfin2 as [Hfilled Hvalid].
  split; [by unfold all_filled; fold (filled_b s'); rewrite Hfilled|].
  split; [by rewrite is_valid_shaped, Hvalid|].
  split; [by rewrite is_finished_shaped, Hfin|].
  intros row column value Hr Hc Hget Hne.
  rewrite get_value_Z in Hget by done. injection Hget as <-.
  rewrite get_value_Z by done. f_equal.
  apply Hext; [by apply npos_inside|done].
Qed.

Lemma solve_success_finished_keeps_clues_witness :
  all_filled solved_grid = Return true solved_grid ∧
  is_valid solved_grid = Return true solved_grid ∧
  is_finished solved_grid = Return true solved_grid ∧
  ∀ row column value,
    0 ≤ row ≤ 8 → 0 ≤ column ≤ 8 →
    get_value row column nearly_solved = Return value nearly_solved →
    value ≠ 0 →
    get_value row column solved_grid = Return value solved_grid.
Proof.
  apply (solve_success_finished_keeps_clues nearly_solved nearly_solved
           solved_grid); vm_compute; reflexivity.
Defined.

(** C5. When [solve] returns [None] the board is cell for cell the one it
    was entered with.  This holds for the call at every depth of the
    recursion (every fuel [n]), hence for each candidate tried and undone
    by the caller one level up. *)
Theorem solve_failure_restores_board (s s' : grid) (n : nat) :
  shaped s →
  solve_fuel n s = Return NotSolvable s' →
  s' = s.
Proof.
  intros Hs Hrun.
  destruct (solve_post_shaped s Hs) as (a & s2 & Hrun2 & _ & Ha).
  rewrite <- (solve_fuel_solve n s Hs) in Hrun2 by (by rewrite Hrun).
  rewrite Hrun in Hrun2. injection Hrun2 as <- <-. done.
Qed.

Lemma solve_failure_restores_board_witness :
  shaped dead_end ∧
  solve_fuel 82 dead_end = Return NotSolvable dead_end ∧
  dead_end = dead_end.
Proof.
  split; [exact shaped_dead_end|]. split; [vm_compute; reflexivity|].
  apply (solve_failure_restores_board dead_end dead_end 82);
    [exact shaped_dead_end | vm_compute; reflexivity].
Defined.

(** C7. [solve] terminates on every 9x9 board.  At most 81 cells are
    empty; a run with more fuel than empty cells returns (no exception, fuel
    not exhausted) and gives the result of [solve]; at an empty cell there
    are at most 9 candidates, and the board handed to the recursive call
    after writing one of them has exactly one empty cell fewer. *)
Theorem solve_terminates (s : grid) :
  shaped s →
  (count_zeros s ≤ 81)%nat ∧
  (∃ a s', solve s = Return a s') ∧
  (∀ n, (count_zeros s < n)%nat → solve_fuel n s = solve s) ∧
  (∀ row column,
     0 ≤ row ≤ 8 → 0 ≤ column ≤ 8 →
     get_value row column s = Return 0 s →
     ∃ values,
       valid_values row column s = Return values s ∧
       (length values ≤ 9)%nat ∧
       ∀ value, value ∈ values →
         ∃ s1, set_value row column value s = Return tt s1 ∧
               shaped s1 ∧ S (count_zeros s1) = count_zeros s).
Proof.
  intros Hs. split; [by apply count_zeros_bound|]. split; [|split].
  - destruct (solve_post_shaped s Hs) as (a & s' & Hrun & _). eauto.
  - intros n Hn. apply solve_fuel_solve; [done|].
    destruct (solve_fuel_post n s Hs Hn) as (a & s' & Hrun & _).
    by rewrite Hrun.
  - intros row column Hr Hc Hget.
    rewrite get_value_Z in Hget by done. injection Hget as Hz.
    exists (candidates s (npos row column)).
    split; [by apply valid_values_Z|]. split; [apply candidates_length|].
    intros v Hv. apply candidates_range in Hv.
    exists (upd s (npos row column) v).
    split; [by apply set_value_Z|]. split; [by apply shaped_upd|].
    apply count_zeros_upd; [done|by apply npos_inside|done|lia].
Qed.

Lemma solve_terminates_witness :
  ∃ a s', solve main_board = Return a s'.
Proof.
  apply (solve_terminates main_board shaped_main_board).
Defined.

(** Validity passes from a grid to every grid it extends. *)
Lemma valid_b_extends s s' : extends s s' → valid_b s' = true → valid_b s = true.
Proof.
  intros Hext Hvalid. apply valid_b_pairwise. intros g p q Hg Hp Hq Hpq Hne.
  rewrite valid_b_pairwise in Hvalid.
  pose proof groups_inside as Hin. rewrite Forall_forall in Hin.
  specialize (Hin g Hg). rewrite Forall_forall in Hin.
  destruct (decide (cell s q = 0)) as [Hz|Hnz]; [congruence|].
  rewrite <- (Hext p), <- (Hext q) by auto.
  apply (Hvalid g); [done..|]. by rewrite Hext by auto.
Qed.

Lemma invalid_not_solvable s : valid_b s = false → ¬ solvable s.
Proof.
  intros Hinv (s' & _ & Hfin & Hext & _). unfold finished_b in Hfin.
  apply andb_true_iff in Hfin as [_ Hvalid].
  by rewrite (valid_b_extends s s' Hext Hvalid) in Hinv.
Qed.

Lemma column_group_In c : (c < 9)%nat → column_group c ∈ groups.
Proof.
  intros Hc. unfold groups, column_groups.
  apply elem_of_app. right. apply elem_of_app. left.
  apply list_elem_of_fmap_2. apply elem_of_seq. lia.
Qed.

Lemma column_clash_invalid s r1 r2 c :
  (r1 < 9)%nat → (r2 < 9)%nat → (c < 9)%nat → r1 ≠ r2 →
  cell s (r1, c) ≠ 0 → cell s (r1, c) = cell s (r2, c) →
  valid_b s = false.
Proof.
  intros H1 H2 Hc Hne Hnz Heq.
  destruct (valid_b s) eqn:Hvalid; [|done]. exfalso.
  rewrite valid_b_pairwise in Hvalid.
  apply (Hvalid (column_group c) (r1, c) (r2, c)); try done.
  - by apply column_group_In.
  - apply (list_elem_of_fmap_2 (λ r, (r, c))). apply elem_of_seq. lia.
  - apply (list_elem_of_fmap_2 (λ r, (r, c))). apply elem_of_seq. lia.
  - congruence.
Qed.

(** * valid_values *)

(** C3. On a 9x9 board and for subscripts in 0..8, [valid_values] returns
    with the grid exactly as it was at entry (the probed cell and every
    other cell); the digits returned are strictly ascending and lie in
    1..9; and a second call right after the first returns the same list. *)
Theorem valid_values_read_only_ascending (s : grid) (row column : Z) :
  shaped s → 0 ≤ row ≤ 8 → 0 ≤ column ≤ 8 →
  ∃ values,
    valid_values row column s = Return values s ∧
    StronglySorted Z.lt values ∧
    Forall (λ value, 1 ≤ value ≤ 9) values ∧
    (do first <- valid_values row column;
     do second <- valid_values row column;
     ret (first, second)) s = Return (values, values) s.
Proof.
  intros Hs Hr Hc. exists (candidates s (npos row column)).
  pose proof (valid_values_Z s row column Hs Hr Hc) as Hrun.
  split; [done|]. split; [apply candidates_sorted|]. split.
  - apply Forall_forall. intros v. apply candidates_range.
  - erewrite bind_Return; [|exact Hrun].
    erewrite bind_Return; [|exact Hrun]. done.
Qed.

Lemma valid_values_read_only_ascending_witness :
  ∃ values,
    valid_values 0 0 main_board = Return values main_board ∧
    StronglySorted Z.lt values ∧
    Forall (λ value, 1 ≤ value ≤ 9) values ∧
    (do first <- valid_values 0 0;
     do second <- valid_values 0 0;
     ret (first, second)) main_board = Return (values, values) main_board.
Proof.
  apply (valid_values_read_only_ascending main_board 0 0 shaped_main_board);
    lia.
Defined.

(** * Read-only queries *)

Lemma final_is_valid s : final (is_valid s) = Some s.
Proof.
  unfold is_valid, _is_valid_rows, _is_valid_columns, _is_valid_squares,
    _get_columns, _get_squares, reading, bind, ret.
  destruct (forallb _is_valid s); [|done].
  destruct (columns_of s) as [columns|]; [|done].
  destruct (forallb _is_valid columns); [|done].
  by destruct (squares_of s).
Qed.

Lemma final_is_finished s : final (is_finished s) = Some s.
Proof.
  unfold is_finished, all_filled, bind, ret.
  destruct (forallb _ (concat s)); [|done]. apply final_is_valid.
Qed.

Lemma final_run_query q s : final (run_query q s) = Some s.
Proof. destruct q; [apply final_is_valid|apply final_is_finished]. Qed.

Lemma final_run_queries qs s : final (run_queries qs s) = Some s.
Proof.
  induction qs as [|q qs IH]; [done|]. cbn [run_queries]. unfold bind, ret.
  pose proof (final_run_query q s) as Hq.
  destruct (run_query q s) as [b s1|e s1|]; simpl in Hq; [|done..].
  injection Hq as ->.
  destruct (run_queries qs s) as [bs s2|e s2|]; simpl in IH; done.
Qed.

(** C10. [is_valid] and [is_finished] perform no write: whatever they
    return or raise, the grid at exit is the grid at entry.  The same holds
    for any sequence of these queries, so a query run after such a sequence
    sees the board, and gives the result, it would have given before. *)
Theorem queries_leave_board_unchanged (s : grid) :
  final (is_valid s) = Some s ∧
  final (is_finished s) = Some s ∧
  ∀ (qs : list query) (q : query),
    final (run_queries qs s) = Some s ∧
    (do_ run_queries qs; run_query q) s =
      match run_queries qs s with
      | Return _ _ => run_query q s
      | Raise e _ => Raise e s
      | OutOfFuel => OutOfFuel
      end.
Proof.
  split; [apply final_is_valid|]. split; [apply final_is_finished|].
  intros qs q. pose proof (final_run_queries qs s) as Hqs.
  split; [done|]. unfold bind.
  destruct (run_queries qs s) as [bs s1|e s1|]; simpl in Hqs; [| |done].
  - by injection Hqs as ->.
  - by injection Hqs as ->.
Qed.

(** * is_valid *)

Lemma elem_of_row_group p r :
  p ∈ row_group r ↔ ∃ c, (c < 9)%nat ∧ p = (r, c).
Proof.
  unfold row_group. rewrite list_elem_of_fmap. split.
  - intros (c & -> & Hc). apply elem_of_seq in Hc. exists c. split; [lia|done].
  - intros (c & Hc & ->). exists c. split; [done|]. apply elem_of_seq. lia.
Qed.

Lemma elem_of_column_group p c :
  p ∈ column_group c ↔ ∃ r, (r < 9)%nat ∧ p = (r, c).
Proof.
  unfold column_group. rewrite list_elem_of_fmap. split.
  - intros (r & -> & Hr). apply elem_of_seq in Hr. exists r. split; [lia|done].
  - intros (r & Hr & ->). exists r. split; [done|]. apply elem_of_seq. lia.
Qed.

Lemma elem_of_square_group p i j :
  p ∈ square_group i j ↔
  ∃ k l, (k < 3)%nat ∧ (l < 3)%nat ∧ p = (3 * i + k, 3 * j + l)%nat.
Proof.
  unfold square_group. rewrite list_elem_of_bind. split.
  - intros (k & Hp & Hk). apply list_elem_of_bind in Hp as (l & Hp & Hl).
    apply list_elem_of_singleton in Hp. apply elem_of_seq in Hk, Hl.
    exists k, l. split; [lia|]. split; [lia|done].
  - intros (k & l & Hk & Hl & ->). exists k. split; [|apply elem_of_seq; lia].
    apply list_elem_of_bind. exists l. split; [|apply elem_of_seq; lia].
    by apply list_elem_of_singleton.
Qed.

Lemma elem_of_row_groups g :
  g ∈ row_groups ↔ ∃ r, (r < 9)%nat ∧ g = row_group r.
Proof.
  unfold row_groups. rewrite list_elem_of_fmap. split.
  - intros (r & -> & Hr). apply elem_of_seq in Hr. exists r. split; [lia|done].
  - intros (r & Hr & ->). exists r. split; [done|]. apply elem_of_seq. lia.
Qed.

Lemma elem_of_column_groups g :
  g ∈ column_groups ↔ ∃ c, (c < 9)%nat ∧ g = column_group c.
Proof.
  unfold column_groups. rewrite list_elem_of_fmap. split.
  - intros (c & -> & Hc). apply elem_of_seq in Hc. exists c. split; [lia|done].
  - intros (c & Hc & ->). exists c. split; [done|]. apply elem_of_seq. lia.
Qed.

Lemma elem_of_square_groups g :
  g ∈ square_groups ↔
  ∃ i j, (i < 3)%nat ∧ (j < 3)%nat ∧ g = square_group i j.
Proof.
  unfold square_groups. rewrite list_elem_of_bind. split.
  - intros (i & Hg & Hi). apply list_elem_of_bind in Hg as (j & Hg & Hj).
    apply list_elem_of_singleton in Hg. apply elem_of_seq in Hi, Hj.
    exists i, j. split; [lia|]. split; [lia|done].
  - intros (i & j & Hi & Hj & ->). exists i. split; [|apply elem_of_seq; lia].
    apply list_elem_of_bind. exists j. split; [|apply elem_of_seq; lia].
    by apply list_elem_of_singleton.
Qed.

Lemma elem_of_groups g :
  g ∈ groups ↔
  (∃ r, (r < 9)%nat ∧ g = row_group r) ∨
  (∃ c, (c < 9)%nat ∧ g = column_group c) ∨
  (∃ i j, (i < 3)%nat ∧ (j < 3)%nat ∧ g = square_group i j).
Proof.
  unfold groups. rewrite !elem_of_app.
  by rewrite elem_of_row_groups, elem_of_column_groups, elem_of_square_groups.
Qed.


Lemma valid_b_partitions s :
  valid_b s = true ↔ rows_distinct s ∧ columns_distinct s ∧ squares_distinct s.
Proof.
  rewrite valid_b_pairwise. split.
  - intros H. split; [|split].
    + intros r c1 c2 Hr H1 H2 Hne.
      apply (H (row_group r)).
      * apply elem_of_groups. left. by exists r.
      * apply elem_of_row_group. by exists c1.
      * apply elem_of_row_group. by exists c2.
      * congruence.
    + intros c r1 r2 Hc H1 H2 Hne.
      apply (H (column_group c)).
      * apply elem_of_groups. right. left. by exists c.
      * apply elem_of_column_group. by exists r1.
      * apply elem_of_column_group. by exists r2.
      * congruence.
    + intros i j k l k' l' Hi Hj Hk Hl Hk' Hl' Hne.
      apply (H (square_group i j)).
      * apply elem_of_groups. right. right. by exists i, j.
      * apply elem_of_square_group. by exists k, l.
      * apply elem_of_square_group. by exists k', l'.
      * intros [= E1 E2]. apply Hne. f_equal; lia.
  - intros (Hrows & Hcols & Hsqs) g p q Hg Hp Hq Hpq.
    apply elem_of_groups in Hg
      as [(r & Hr & ->)|[(c & Hc & ->)|(i & j & Hi & Hj & ->)]].
    + apply elem_of_row_group in Hp as (c1 & H1 & ->).
      apply elem_of_row_group in Hq as (c2 & H2 & ->).
      apply Hrows; try done. congruence.
    + apply elem_of_column_group in Hp as (r1 & H1 & ->).
      apply elem_of_column_group in Hq as (r2 & H2 & ->).
      apply Hcols; try done. congruence.
    + apply elem_of_square_group in Hp as (k & l & Hk & Hl & ->).
      apply elem_of_square_group in Hq as (k' & l' & Hk' & Hl' & ->).
      apply Hsqs; try done. congruence.
Qed.

(** C4. On a board accepted by [Board.__init__], [is_valid] returns
    (without raising and without touching the grid) and its answer is true
    exactly when, in each of the 9 rows, the 9 columns and the 9 squares
    aligned at multiples of 3, the non-zero entries are pairwise distinct. *)
Theorem is_valid_iff_groups_distinct (board s : grid) :
  Board_init board = inr s →
  ∃ ok, is_valid s = Return ok s ∧
        (ok = true ↔
         rows_distinct s ∧ columns_distinct s ∧ squares_distinct s).
Proof.
  intros Hinit. apply Board_init_inr in Hinit as (_ & Hs & _).
  exists (valid_b s). split; [by apply is_valid_shaped|].
  apply valid_b_partitions.
Qed.

Lemma is_valid_iff_groups_distinct_witness :
  ∃ ok, is_valid main_board = Return ok main_board ∧
        (ok = true ↔
         rows_distinct main_board ∧ columns_distinct main_board ∧
         squares_distinct main_board).
Proof.
  apply (is_valid_iff_groups_distinct main_board main_board). reflexivity.
Defined.

(** * Candidates and the groups through a cell *)

Lemma own_groups p :
  inside p →
  row_group p.1 ∈ groups ∧ column_group p.2 ∈ groups ∧
  square_group (p.1 `div` 3) (p.2 `div` 3) ∈ groups.
Proof.
  intros [Hr Hc]. rewrite !elem_of_groups. split; [|split].
  - left. by exists p.1.
  - right. left. by exists p.2.
  - right. right. exists (p.1 `div` 3)%nat, (p.2 `div` 3)%nat.
    split; [|split; [|done]]; apply Nat.Div0.div_lt_upper_bound; lia.
Qed.

Lemma groups_through p g :
  g ∈ groups → p ∈ g →
  g = row_group p.1 ∨ g = column_group p.2 ∨
  g = square_group (p.1 `div` 3) (p.2 `div` 3).
Proof.
  intros Hg Hp.
  apply elem_of_groups in Hg
    as [(r & Hr & ->)|[(c & Hc & ->)|(i & j & Hi & Hj & ->)]].
  - apply elem_of_row_group in Hp as (c & _ & ->). by left.
  - apply elem_of_column_group in Hp as (r & _ & ->). right. by left.
  - apply elem_of_square_group in Hp as (k & l & Hk & Hl & ->).
    right. right. cbn [fst snd]. f_equal.
    + apply (Nat.div_unique _ 3 i k); lia.
    + apply (Nat.div_unique _ 3 j l); lia.
Qed.



Lemma probe_is_valid s row column v :
  shaped s → 0 ≤ row ≤ 8 → 0 ≤ column ≤ 8 →
  (do_ set_value row column v; is_valid) s =
  Return (valid_b (upd s (npos row column) v)) (upd s (npos row column) v).
Proof.
  intros Hs Hr Hc. erewrite bind_Return; [|by apply set_value_Z].
  by apply is_valid_shaped, shaped_upd.
Qed.




(** * Subscripts outside 0..8 *)

Lemma index_mod9 {A} (l : list A) (i : Z) :
  length l = 9%nat → -9 ≤ i ≤ 8 →
  Py.index l i = Some (Z.to_nat (i `mod` 9)).
Proof.
  intros Hlen Hi. destruct (decide (0 ≤ i)) as [Hpos|Hneg].
  - rewrite index_nonneg by lia. by rewrite Z.mod_small by lia.
  - rewrite index_negative by lia. do 2 f_equal. rewrite Hlen.
    apply (Z.mod_unique i 9 (-1)); lia.
Qed.

Lemma index_outside9 {A} (l : list A) (i : Z) :
  length l = 9%nat → ¬ (-9 ≤ i ≤ 8) → Py.index l i = None.
Proof. intros Hlen Hi. apply index_outside. lia. Qed.

Lemma getitem_mod9 {A} (l : list A) (i : Z) :
  length l = 9%nat → -9 ≤ i ≤ 8 →
  Py.getitem l i = Py.getitem l (i `mod` 9).
Proof.
  intros Hlen Hi. unfold Py.getitem. rewrite !index_mod9; try done.
  - by rewrite Z.mod_mod by lia.
  - pose proof (Z.mod_pos_bound i 9). lia.
Qed.

Lemma setitem_mod9 {A} (l : list A) (i : Z) (x : A) :
  length l = 9%nat → -9 ≤ i ≤ 8 →
  Py.setitem l i x = Py.setitem l (i `mod` 9) x.
Proof.
  intros Hlen Hi. unfold Py.setitem. rewrite !index_mod9; try done.
  - by rewrite Z.mod_mod by lia.
  - pose proof (Z.mod_pos_bound i 9). lia.
Qed.

Lemma getitem_row s (row : Z) r :
  shaped s → Py.getitem s row = Some r → length r = 9%nat.
Proof.
  intros [_ Hrows] Hget. unfold Py.getitem in Hget.
  destruct (Py.index s row) as [k|]; [|done].
  by eapply Forall_lookup_1 in Hrows.
Qed.

Lemma get_value_outside s row column :
  shaped s → ¬ (-9 ≤ row ≤ 8 ∧ -9 ≤ column ≤ 8) →
  get_value row column s = Raise IndexError s.
Proof.
  intros Hs Hout. unfold get_value.
  destruct (Py.getitem s row) as [r|] eqn:Hrow; [|done].
  pose proof (getitem_row s row r Hs Hrow) as Hlen.
  assert (-9 ≤ row ≤ 8) as Hr.
  { destruct (decide (-9 ≤ row ≤ 8)) as [|Hno]; [done|].
    unfold Py.getitem in Hrow.
    by rewrite (index_outside9 s row (proj1 Hs) Hno) in Hrow. }
  unfold Py.getitem. rewrite index_outside9; [done..|]. lia.
Qed.

Lemma set_value_outside s row column v :
  shaped s → ¬ (-9 ≤ row ≤ 8 ∧ -9 ≤ column ≤ 8) →
  set_value row column v s = Raise IndexError s.
Proof.
  intros Hs Hout. unfold set_value.
  destruct (Py.index s row) as [k|] eqn:Hk; [|done].
  destruct (Py.getitem s row) as [r|] eqn:Hrow; [|done].
  pose proof (getitem_row s row r Hs Hrow) as Hlen.
  assert (-9 ≤ row ≤ 8) as Hr.
  { destruct (decide (-9 ≤ row ≤ 8)) as [|Hno]; [done|].
    by rewrite (index_outside9 s row (proj1 Hs) Hno) in Hk. }
  unfold Py.setitem. rewrite index_outside9; [done..|]. lia.
Qed.

Lemma get_value_wrap s row column :
  shaped s → -9 ≤ row ≤ 8 → -9 ≤ column ≤ 8 →
  get_value row column s = get_value (row `mod` 9) (column `mod` 9) s.
Proof.
  intros Hs Hr Hc. unfold get_value.
  rewrite <- (getitem_mod9 s row (proj1 Hs) Hr).
  destruct (Py.getitem s row) as [r|] eqn:Hrow; [|done].
  by rewrite (getitem_mod9 r column (getitem_row s row r Hs Hrow) Hc).
Qed.

Lemma set_value_wrap s row column v :
  shaped s → -9 ≤ row ≤ 8 → -9 ≤ column ≤ 8 →
  set_value row column v s = set_value (row `mod` 9) (column `mod` 9) v s.
Proof.
  intros Hs Hr Hc. unfold set_value.
  rewrite <- (getitem_mod9 s row (proj1 Hs) Hr).
  assert (Py.index s (row `mod` 9) = Py.index s row) as ->.
  { pose proof (Z.mod_pos_bound row 9).
    rewrite !index_mod9; try apply Hs; try lia. by rewrite Z.mod_mod by lia. }
  destruct (Py.index s row) as [k|]; [|done].
  destruct (Py.getitem s row) as [r|] eqn:Hrow; [|done].
  by rewrite (setitem_mod9 r column v (getitem_row s row r Hs Hrow) Hc).
Qed.

(** C8 as stated fails: the subscript -1 is outside 0..8, yet
    [get_value (-1) (-1)] returns the content of cell (8, 8) and
    [set_value (-1) (-1)] overwrites it. *)
Lemma negative_subscript_not_checked : ¬ bounds_checked solved_grid.
Proof.
  intros Hclaim. destruct (Hclaim (-1) (-1)) as [Hget _]; [lia|].
  assert (get_value (-1) (-1) solved_grid = Return 1 solved_grid) as Hrun
    by (vm_compute; reflexivity).
  by rewrite Hrun in Hget.
Qed.

(** C8, amended. On a 9x9 board, a cell access with a subscript outside
    -9..8 raises [IndexError] and leaves every cell as it was; a subscript
    in -9..-1 does not raise: following Python's list indexing it addresses
    the row or column 9 places further on, so the access returns normally
    and reads or writes that cell. *)
Theorem access_outside_raises_or_wraps (s : grid) :
  shaped s →
  (∀ row column,
     ¬ (-9 ≤ row ≤ 8 ∧ -9 ≤ column ≤ 8) →
     get_value row column s = Raise IndexError s ∧
     ∀ v, set_value row column v s = Raise IndexError s) ∧
  (∀ row column,
     -9 ≤ row ≤ 8 → -9 ≤ column ≤ 8 →
     (get_value row column s = get_value (row `mod` 9) (column `mod` 9) s ∧
      ∀ v, set_value row column v s =
           set_value (row `mod` 9) (column `mod` 9) v s) ∧
     (row < 0 → row `mod` 9 = row + 9) ∧
     (column < 0 → column `mod` 9 = column + 9) ∧
     get_value row column s =
       Return (cell s (npos (row `mod` 9) (column `mod` 9))) s ∧
     ∀ v, ∃ s',
       set_value row column v s = Return tt s' ∧
       shaped s' ∧
       cell s' (npos (row `mod` 9) (column `mod` 9)) = v ∧
       get_value row column s' = Return v s').
Proof.
  intros Hs. split.
  - intros row column Hout. split; [by apply get_value_outside|].
    intros v. by apply set_value_outside.
  - intros row column Hr Hc.
    pose proof (Z.mod_pos_bound row 9) as Hr'.
    pose proof (Z.mod_pos_bound column 9) as Hc'.
    assert (inside (npos (row `mod` 9) (column `mod` 9))) as Hp
      by (apply npos_inside; lia).
    split; [split; [by apply get_value_wrap|]|].
    { intros v. by apply set_value_wrap. }
    split; [intros Hneg; symmetry; apply (Z.mod_unique row 9 (-1)); lia|].
    split; [intros Hneg; symmetry; apply (Z.mod_unique column 9 (-1)); lia|].
    split.
    + rewrite get_value_wrap by done. apply get_value_Z; [done|lia..].
    + intros v. exists (upd s (npos (row `mod` 9) (column `mod` 9)) v).
      pose proof (shaped_upd s (npos (row `mod` 9) (column `mod` 9)) v Hs)
        as Hs'.
      split; [|split; [done|split; [by apply cell_upd_eq|]]].
      * rewrite set_value_wrap by done. apply set_value_Z; [done|lia..].
      * rewrite get_value_wrap by done.
        rewrite get_value_Z by (done || lia). f_equal. by apply cell_upd_eq.
Qed.

Lemma access_outside_raises_or_wraps_witness :
  (get_value 9 0 nearly_solved = Raise IndexError nearly_solved ∧
   ∀ v, set_value 9 0 v nearly_solved = Raise IndexError nearly_solved) ∧
  (get_value (-1) (-1) nearly_solved = Return 1 nearly_solved ∧
   ∀ v, ∃ s',
     set_value (-1) (-1) v nearly_solved = Return tt s' ∧
     shaped s' ∧
     cell s' (8, 8)%nat = v ∧
     get_value (-1) (-1) s' = Return v s').
Proof.
  destruct (access_outside_raises_or_wraps nearly_solved shaped_nearly_solved)
    as [Hout Hwrap].
  split; [apply Hout; lia|].
  destruct (Hwrap (-1) (-1)) as (_ & _ & _ & Hget & Hset); [lia..|].
  split; [exact Hget|exact Hset].
Defined.

(** * __str__ *)

Lemma format_cell_digit v :
  0 ≤ v ≤ 9 → format_cell v = String (cell_char v) EmptyString.
Proof.
  intros Hv.
  assert (v = 0 ∨ v = 1 ∨ v = 2 ∨ v = 3 ∨ v = 4 ∨ v = 5 ∨ v = 6 ∨ v = 7 ∨
          v = 8 ∨ v = 9) as Hcases by lia.
  repeat (destruct Hcases as [->|Hcases]; [reflexivity|]). by subst.
Qed.

Lemma format_row_sliced a b c d e f g h i :
  format_row [a; b; c; d; e; f; g; h; i] =
  ((format_cell a ++ " " ++ format_cell b ++ " " ++ format_cell c) ++ " | " ++
   (format_cell d ++ " " ++ format_cell e ++ " " ++ format_cell f) ++ " | " ++
   (format_cell g ++ " " ++ format_cell h ++ " " ++ format_cell i))%string.
Proof. reflexivity. Qed.

Lemma format_row_render row :
  length row = 9%nat → Forall (λ value, 0 ≤ value ≤ 9) row →
  format_row row = render_row row.
Proof.
  intros Hlen Hdigits. explode_list row Hlen.
  repeat match goal with
         | H : Forall _ (_ :: _) |- _ =>
             let Hd := fresh "Hd" in apply Forall_cons in H as [Hd H]
         end.
  rewrite format_row_sliced. rewrite !format_cell_digit by done. reflexivity.
Qed.

Lemma render_row_length row :
  length row = 9%nat → String.length (render_row row) = 21%nat.
Proof. intros Hlen. explode_list row Hlen. reflexivity. Qed.

Lemma Board_str_rows r0 r1 r2 r3 r4 r5 r6 r7 r8 :
  Board_str [r0; r1; r2; r3; r4; r5; r6; r7; r8] =
  Return
    (Py.join newline
       [ format_row r0; format_row r1; format_row r2; Py.repeat_char "-" 21;
         format_row r3; format_row r4; format_row r5; Py.repeat_char "-" 21;
         format_row r6; format_row r7; format_row r8 ])
    [r0; r1; r2; r3; r4; r5; r6; r7; r8].
Proof. reflexivity. Qed.

(** C9. On a board accepted by [Board.__init__] the rendering is the nine
    rows, each 21 characters long with [.] for 0, one space inside a group
    of three and [ | ] between groups, joined by newlines, with a rule of 21
    dashes before the 4th and the 7th row, and nothing else.  The grid is
    not modified. *)
Theorem Board_str_layout (board s : grid) :
  Board_init board = inr s →
  Board_str s = Return (render s) s ∧
  Forall (λ row, String.length (render_row row) = 21%nat) s ∧
  rule = Py.repeat_char "-" 21 ∧ String.length rule = 21%nat.
Proof.
  intros Hinit. apply Board_init_inr in Hinit as (_ & Hs & Hd).
  split; [|split; [|done]].
  - destruct Hs as [Hlen Hrows]. explode_list s Hlen.
    rewrite Board_str_rows. unfold render. unfold digits in Hd.
    repeat match goal with
           | H : Forall _ (_ :: _) |- _ =>
               let Hh := fresh "Hh" in apply Forall_cons in H as [Hh H]
           end.
    rewrite !format_row_render by done. reflexivity.
  - destruct Hs as [_ Hrows]. eapply Forall_impl; [exact Hrows|].
    intros row. apply render_row_length.
Qed.

Lemma Board_str_layout_witness :
  Board_str main_board = Return (render main_board) main_board ∧
  Forall (λ row, String.length (render_row row) = 21%nat) main_board ∧
  rule = Py.repeat_char "-" 21 ∧ String.length rule = 21%nat.
Proof.
  apply (Board_str_layout main_board main_board). reflexivity.
Defined.

(** * Further properties of the board *)

(** ** Construction *)

Lemma Board_init_cases board :
  Board_init board = inr board ∨ Board_init board = inl AssertionError.
Proof.
  unfold Board_init.
  destruct (negb _); [by right|]. destruct (negb _); [by right|].
  destruct (negb _); [by right|by left].
Qed.

Lemma Board_init_accepts board :
  shaped board → digits board → Board_init board = inr board.
Proof.
  intros [Hlen Hrows] Hd. unfold Board_init.
  rewrite Hlen. cbn [Nat.eqb negb].
  assert (forallb (λ row, Nat.eqb (length row) 9) board = true) as ->.
  { apply forallb_forall. intros row Hrow. apply list_elem_of_In in Hrow.
    rewrite Forall_forall in Hrows. by apply Nat.eqb_eq, Hrows. }
  cbn [negb].
  assert (forallb (λ value, (0 <=? value) && (value <=? 9)) (concat board)
          = true) as ->; [|done].
  apply forallb_forall. intros v Hv. apply in_concat in Hv as (row & Hrow & Hv).
  apply list_elem_of_In in Hrow, Hv.
  unfold digits in Hd. rewrite Forall_forall in Hd. specialize (Hd row Hrow).
  rewrite Forall_forall in Hd. specialize (Hd v Hv). lia.
Qed.

(** X1. [Board.__init__] accepts a grid exactly when it has nine rows of
    nine entries, all in 0..9; it then keeps the grid as it is.  Every
    other grid fails an assertion. *)
Theorem Board_init_accepts_iff (board : grid) :
  (Board_init board = inr board ↔ shaped board ∧ digits board) ∧
  (Board_init board = inl AssertionError ↔ ¬ (shaped board ∧ digits board)) ∧
  (∀ s, Board_init board = inr s → s = board).
Proof.
  assert (Board_init board = inr board ↔ shaped board ∧ digits board) as Hiff.
  { split.
    - intros H. by apply Board_init_inr in H as (_ & ? & ?).
    - intros [? ?]. by apply Board_init_accepts. }
  split; [done|]. split.
  - split.
    + intros H Hok. apply Hiff in Hok. congruence.
    + intros Hno. destruct (Board_init_cases board) as [H|H]; [|done].
      by apply Hiff in H.
  - intros s H. by apply Board_init_inr in H as (? & _).
Qed.

(** ** Cell accesses *)

Lemma mod9_range (i : Z) : 0 ≤ i `mod` 9 ≤ 8.
Proof. pose proof (Z.mod_pos_bound i 9). lia. Qed.

Lemma npos_eq row column row' column' :
  0 ≤ row → 0 ≤ column → 0 ≤ row' → 0 ≤ column' →
  npos row column = npos row' column' → (row, column) = (row', column').
Proof. unfold npos. intros ???? [= H1 H2]. f_equal; lia. Qed.

Lemma set_value_mod s row column v :
  shaped s → -9 ≤ row ≤ 8 → -9 ≤ column ≤ 8 →
  set_value row column v s =
  Return tt (upd s (npos (row `mod` 9) (column `mod` 9)) v).
Proof.
  intros Hs Hr Hc. rewrite set_value_wrap by done.
  apply set_value_Z; [done|apply mod9_range..].
Qed.

Lemma get_value_mod s row column :
  shaped s → -9 ≤ row ≤ 8 → -9 ≤ column ≤ 8 →
  get_value row column s =
  Return (cell s (npos (row `mod` 9) (column `mod` 9))) s.
Proof.
  intros Hs Hr Hc. rewrite get_value_wrap by done.
  apply get_value_Z; [done|apply mod9_range..].
Qed.

(** X3. Two writes to the same cell amount to the second one, and writing
    back the value just read leaves the grid as it was. *)
Theorem set_value_overwrites (s : grid) (row column v w : Z) :
  shaped s → -9 ≤ row ≤ 8 → -9 ≤ column ≤ 8 →
  (do_ set_value row column v; set_value row column w) s =
    set_value row column w s ∧
  (do x <- get_value row column; set_value row column x) s = Return tt s.
Proof.
  intros Hs Hr Hc. split.
  - erewrite bind_Return; [|by apply set_value_mod].
    rewrite !set_value_mod by (by try apply shaped_upd).
    by rewrite upd_upd.
  - erewrite bind_Return; [|by apply get_value_mod].
    rewrite set_value_mod by done. by rewrite upd_cell.
Qed.

Lemma set_value_overwrites_witness :
  (do_ set_value 2 (-4) 7; set_value 2 (-4) 3) main_board =
    set_value 2 (-4) 3 main_board ∧
  (do x <- get_value 2 (-4); set_value 2 (-4) x) main_board =
    Return tt main_board.
Proof.
  apply (set_value_overwrites main_board 2 (-4) 7 3 shaped_main_board); lia.
Defined.

(** ** Cells that share a group *)

Lemma same_group_peer g a b :
  g ∈ groups → a ∈ g → b ∈ g → a ≠ b → peer a b.
Proof.
  intros Hg Ha Hb Hab. split; [done|].
  destruct (groups_through a g Hg Ha) as [->|[->| ->]].
  - apply elem_of_row_group in Hb as (c & _ & ->). by left.
  - apply elem_of_column_group in Hb as (r & _ & ->). right. by left.
  - right. right.
    apply elem_of_square_group in Hb as (k & l & Hk & Hl & ->).
    cbn [fst snd]. split.
    + apply (Nat.div_unique _ 3 _ k); lia.
    + apply (Nat.div_unique _ 3 _ l); lia.
Qed.

Lemma elem_of_own_square p :
  p ∈ square_group (p.1 `div` 3) (p.2 `div` 3).
Proof.
  apply elem_of_square_group.
  exists (p.1 `mod` 3)%nat, (p.2 `mod` 3)%nat.
  split; [apply Nat.mod_upper_bound; lia|].
  split; [apply Nat.mod_upper_bound; lia|].
  destruct p as [r c]. cbn [fst snd]. f_equal; apply Nat.div_mod_eq.
Qed.

Lemma peer_group a b :
  inside a → inside b → peer a b → ∃ g, g ∈ groups ∧ a ∈ g ∧ b ∈ g.
Proof.
  intros Ha Hb [_ Hshare].
  destruct (own_groups a Ha) as (Hrow & Hcol & Hsq).
  destruct a as [r c], b as [r' c']. destruct Ha as [Hr Hc], Hb as [Hr' Hc'].
  cbn [fst snd] in *. destruct Hshare as [<-|[<-|[E1 E2]]].
  - exists (row_group r). split; [done|].
    split; apply elem_of_row_group; eauto.
  - exists (column_group c). split; [done|].
    split; apply elem_of_column_group; eauto.
  - exists (square_group (r `div` 3) (c `div` 3)). split; [done|]. split.
    + apply (elem_of_own_square (r, c)).
    + rewrite E1, E2. apply (elem_of_own_square (r', c')).
Qed.

Lemma cell_upd_self s p v :
  cell (upd s p v) p = v ∨ cell (upd s p v) p = cell s p.
Proof.
  unfold upd. destruct (s !! p.1) as [row|] eqn:Hrow; [|by right].
  destruct (decide (p.2 < length row)%nat) as [Hlt|Hge].
  - left. unfold cell.
    rewrite list_lookup_insert_eq by (by eapply lookup_lt_Some).
    by rewrite list_lookup_insert_eq by done.
  - right. rewrite (list_insert_ge row) by lia.
    by rewrite (list_insert_id s p.1 row Hrow).
Qed.

Lemma extends_clear s p : extends (upd s p 0) s.
Proof.
  intros q _ Hne. destruct (decide (p = q)) as [->|Hpq].
  - by destruct (cell_upd_self s q 0) as [E|E].
  - by rewrite cell_upd_ne.
Qed.

Lemma valid_b_clear s p : valid_b s = true → valid_b (upd s p 0) = true.
Proof. apply valid_b_extends, extends_clear. Qed.

(** ** Validity and candidates *)

(** X4. Emptying a cell of a valid board leaves it valid. *)
Theorem clearing_keeps_valid (s : grid) (row column : Z) :
  shaped s → 0 ≤ row ≤ 8 → 0 ≤ column ≤ 8 →
  is_valid s = Return true s →
  (do_ set_value row column 0; is_valid) s =
  Return true (upd s (npos row column) 0).
Proof.
  intros Hs Hr Hc Hvalid. rewrite probe_is_valid by done.
  rewrite is_valid_shaped in Hvalid by done. injection Hvalid as Hvalid.
  by rewrite valid_b_clear.
Qed.

Lemma clearing_keeps_valid_witness :
  (do_ set_value 6 4 0; is_valid) main_board =
  Return true (upd main_board (npos 6 4) 0).
Proof.
  apply (clearing_keeps_valid main_board 6 4 shaped_main_board);
    [lia | lia | vm_compute; reflexivity].
Defined.

Lemma candidate_no_peer s p q v :
  inside p → inside q → peer p q → v ≠ 0 →
  valid_b (upd s p v) = true → shaped s → cell s q ≠ v.
Proof.
  intros Hp Hq Hpeer Hv Hvalid Hs.
  destruct (peer_group p q Hp Hq Hpeer) as (g & Hg & Hpg & Hqg).
  rewrite valid_b_pairwise in Hvalid.
  specialize (Hvalid g p q Hg Hpg Hqg (proj1 Hpeer)).
  rewrite cell_upd_eq, cell_upd_ne in Hvalid by (done || apply Hpeer).
  intros E. by apply Hvalid.
Qed.

Lemma no_peer_candidate s p v :
  shaped s → inside p → v ≠ 0 →
  valid_b (upd s p 0) = true →
  (∀ q, inside q → peer p q → cell s q ≠ v) →
  valid_b (upd s p v) = true.
Proof.
  intros Hs Hp Hv Hrest Hfree. apply valid_b_pairwise.
  intros g a b Hg Ha Hb Hab Hne.
  pose proof groups_inside as Hin. rewrite Forall_forall in Hin.
  specialize (Hin g Hg). rewrite Forall_forall in Hin.
  rewrite valid_b_pairwise in Hrest.
  destruct (decide (p = a)) as [<-|Hpa]; [|destruct (decide (p = b)) as [<-|Hpb]].
  - rewrite cell_upd_eq, cell_upd_ne by done.
    intros E. apply (Hfree b); [by apply Hin|by eapply same_group_peer|done].
  - rewrite cell_upd_eq by done. rewrite cell_upd_ne in Hne |- * by done.
    apply Hfree; [by apply Hin|]. by eapply same_group_peer.
  - rewrite cell_upd_ne in Hne by done. rewrite !cell_upd_ne by done.
    rewrite <- (cell_upd_ne s p a 0), <- (cell_upd_ne s p b 0) by done.
    apply (Hrest g); try done. by rewrite cell_upd_ne.
Qed.

(** The Sudoku rule in terms of the grid: no candidate occurs in a peer
    cell, and when the grid with the cell emptied is free of repeated
    digits every digit of 1..9 that occurs in no peer cell is a candidate. *)
Lemma candidates_sudoku_rule s p :
  shaped s → inside p →
  (∀ v q, v ∈ candidates s p → inside q → peer p q → cell s q ≠ v) ∧
  (valid_b (upd s p 0) = true →
   ∀ v, 1 ≤ v ≤ 9 →
     (∀ q, inside q → peer p q → cell s q ≠ v) → v ∈ candidates s p).
Proof.
  intros Hs Hp. split.
  - intros v q Hv Hq Hpeer.
    apply candidates_spec in Hv as [Hrange Hvalid].
    apply (candidate_no_peer s p); try done. lia.
  - intros Hrest v Hv Hfree. apply candidates_spec. split; [done|].
    apply no_peer_candidate; try done. lia.
Qed.

Lemma candidates_nil s p :
  valid_b (upd s p 0) = false → candidates s p = [].
Proof.
  intros Hbad. apply elem_of_nil_inv. intros v Hv.
  apply candidates_spec in Hv as [_ Hvalid].
  apply (valid_b_clear _ p) in Hvalid. rewrite upd_upd in Hvalid. congruence.
Qed.

(** X6. When the rest of the board is already invalid (the board with the
    cell emptied fails [is_valid]), [valid_values] returns the empty list;
    and on a valid board a cell that holds a digit of 1..9 has that digit
    among its candidates. *)
Theorem valid_values_empty_or_own (s : grid) (row column : Z) :
  shaped s → 0 ≤ row ≤ 8 → 0 ≤ column ≤ 8 →
  ((do_ set_value row column 0; is_valid) s =
     Return false (upd s (npos row column) 0) →
   valid_values row column s = Return [] s) ∧
  (is_valid s = Return true s →
   ∀ d, get_value row column s = Return d s → 1 ≤ d ≤ 9 →
        ∃ values, valid_values row column s = Return values s ∧ d ∈ values).
Proof.
  intros Hs Hr Hc. rewrite valid_values_Z by done. split.
  - rewrite probe_is_valid by done. intros [= Hbad].
    by rewrite candidates_nil.
  - rewrite is_valid_shaped by done. intros [= Hvalid] d.
    rewrite get_value_Z by done. intros [= Hd] Hrange.
    eexists. split; [done|]. apply candidates_spec. split; [done|].
    by rewrite (upd_same s _ d Hd).
Qed.

Lemma valid_values_empty_or_own_witness :
  valid_values 0 0 far_clash = Return [] far_clash.
Proof.
  apply (valid_values_empty_or_own far_clash 0 0);
    [split; [reflexivity|by repeat constructor] | lia | lia |
     vm_compute; reflexivity].
Defined.

(** ** Symmetries of is_valid *)

Lemma cell_relabel f s p : f 0 = 0 → cell (relabel f s) p = f (cell s p).
Proof.
  intros Hf. unfold cell, relabel. rewrite list_lookup_fmap.
  destruct (s !! p.1) as [row|]; [|done]. cbn.
  rewrite list_lookup_fmap. by destruct (row !! p.2).
Qed.

Lemma shaped_relabel f s : shaped s → shaped (relabel f s).
Proof.
  intros [Hlen Hrows]. unfold relabel. split; [by rewrite length_fmap|].
  apply Forall_fmap. eapply Forall_impl; [exact Hrows|].
  intros row Hrow. cbn. by rewrite length_fmap.
Qed.

Lemma valid_b_relabel f s :
  (∀ x, f x = 0 ↔ x = 0) →
  (∀ x y, x ≠ 0 → y ≠ 0 → f x = f y → x = y) →
  valid_b (relabel f s) = valid_b s.
Proof.
  intros Hzero Hinj. assert (f 0 = 0) as Hf0 by (by apply Hzero).
  apply eq_true_iff_eq. rewrite !valid_b_pairwise.
  split; intros H g p q Hg Hp Hq Hpq Hne.
  - specialize (H g p q Hg Hp Hq Hpq). rewrite !cell_relabel in H by done.
    intros E. apply H; [by rewrite Hzero|by rewrite E].
  - rewrite !cell_relabel in * by done.
    assert (cell s p ≠ 0) as Hp0 by (by rewrite <- Hzero).
    specialize (H g p q Hg Hp Hq Hpq Hp0). intros E.
    destruct (decide (cell s q = 0)) as [Hq0|Hq0].
    + rewrite Hq0, Hf0 in E. done.
    + by apply H, Hinj.
Qed.

(** X7. [is_valid] does not depend on which digits are used: renaming the
    entries of a 9x9 grid by a function that keeps 0 for the empty cells
    and is injective on the other values leaves the answer unchanged. *)
Theorem is_valid_relabel (f : Z → Z) (s : grid) :
  shaped s →
  (∀ x, f x = 0 ↔ x = 0) →
  (∀ x y, x ≠ 0 → y ≠ 0 → f x = f y → x = y) →
  ∃ ok, is_valid s = Return ok s ∧
        is_valid (relabel f s) = Return ok (relabel f s).
Proof.
  intros Hs Hzero Hinj. exists (valid_b s).
  split; [by apply is_valid_shaped|].
  rewrite is_valid_shaped by (by apply shaped_relabel).
  by rewrite valid_b_relabel.
Qed.

Lemma is_valid_relabel_witness :
  ∃ ok, is_valid main_board = Return ok main_board ∧
        is_valid (relabel (Z.mul 2) main_board) =
        Return ok (relabel (Z.mul 2) main_board).
Proof.
  apply (is_valid_relabel (Z.mul 2) main_board shaped_main_board);
    intros; lia.
Defined.

Lemma shaped_view_columns s : shaped s → shaped (view s column_groups).
Proof. intros Hs. split; [reflexivity|]. by repeat constructor. Qed.

Lemma shaped_view_squares s : shaped s → shaped (view s square_groups).
Proof. intros Hs. split; [reflexivity|]. by repeat constructor. Qed.

Lemma transposed_view_columns s :
  shaped s → transposed s (view s column_groups).
Proof.
  intros Hs r c Hr Hc. split_grid81 s Hs.
  do 9 (destruct r as [|r];
        [do 9 (destruct c as [|c]; [reflexivity|]); lia|]).
  lia.
Qed.

Lemma columns_of_view_columns s :
  shaped s → columns_of (view s column_groups) = Some s.
Proof. intros Hs. split_grid81 s Hs. reflexivity. Qed.

Lemma squares_of_view_squares s :
  shaped s → squares_of (view s square_groups) = Some s.
Proof. intros Hs. split_grid81 s Hs. reflexivity. Qed.

Lemma transposed_sym s t : transposed s t → transposed t s.
Proof. intros H r c Hr Hc. symmetry. by apply H. Qed.

Lemma valid_b_transposed s t :
  transposed s t → valid_b s = true → valid_b t = true.
Proof.
  intros Ht. rewrite !valid_b_partitions. intros (Hrows & Hcols & Hsqs).
  split; [|split].
  - intros r c1 c2 Hr H1 H2 Hne. rewrite !Ht by done. by apply Hcols.
  - intros c r1 r2 Hc H1 H2 Hne. rewrite !Ht by done. by apply Hrows.
  - intros i j k l k' l' Hi Hj Hk Hl Hk' Hl' Hne. rewrite !Ht by lia.
    apply Hsqs; try done. intros [= -> ->]. done.
Qed.

(** X8. On a 9x9 grid [_get_columns] is the transposition: it returns a
    9x9 grid whose entry (r, c) is the board's entry (c, r), applying it to
    its own result gives the board back, and [is_valid] gives the same
    answer on the transposed grid as on the board. *)
Theorem _get_columns_transposes (s : grid) :
  shaped s →
  ∃ t,
    _get_columns s = Return t s ∧
    shaped t ∧
    _get_columns t = Return s t ∧
    (∀ row column,
       0 ≤ row ≤ 8 → 0 ≤ column ≤ 8 →
       ∃ v, get_value row column t = Return v t ∧
            get_value column row s = Return v s) ∧
    ∃ ok, is_valid s = Return ok s ∧ is_valid t = Return ok t.
Proof.
  intros Hs. exists (view s column_groups).
  pose proof (shaped_view_columns s Hs) as Ht.
  pose proof (transposed_view_columns s Hs) as Htr.
  split; [by unfold _get_columns, reading; rewrite columns_view|].
  split; [done|].
  split; [by unfold _get_columns, reading; rewrite columns_of_view_columns|].
  split.
  - intros row column Hr Hc. exists (cell s (npos column row)).
    split; [|by apply get_value_Z].
    rewrite get_value_Z by done. f_equal. apply Htr; lia.
  - exists (valid_b s). split; [by apply is_valid_shaped|].
    rewrite is_valid_shaped by done. f_equal.
    apply eq_true_iff_eq. split.
    + apply valid_b_transposed. by apply transposed_sym.
    + by apply valid_b_transposed.
Qed.

Lemma _get_columns_transposes_witness :
  ∃ t,
    _get_columns main_board = Return t main_board ∧
    shaped t ∧
    _get_columns t = Return main_board t ∧
    (∀ row column,
       0 ≤ row ≤ 8 → 0 ≤ column ≤ 8 →
       ∃ v, get_value row column t = Return v t ∧
            get_value column row main_board = Return v main_board) ∧
    ∃ ok, is_valid main_board = Return ok main_board ∧
          is_valid t = Return ok t.
Proof. apply (_get_columns_transposes main_board shaped_main_board). Defined.

Lemma cell_view_squares s i j k l :
  shaped s → (i < 3)%nat → (j < 3)%nat → (k < 3)%nat → (l < 3)%nat →
  cell (view s square_groups) (3 * i + j, 3 * k + l)%nat =
  cell s (3 * i + k, 3 * j + l)%nat.
Proof.
  intros Hs Hi Hj Hk Hl. split_grid81 s Hs.
  do 3 (destruct i as [|i]; [
    do 3 (destruct j as [|j]; [
      do 3 (destruct k as [|k]; [
        do 3 (destruct l as [|l]; [reflexivity|]); lia|]); lia|]); lia|]).
  lia.
Qed.

(** X9. On a 9x9 grid [_get_squares] regroups the board square by square:
    it returns a 9x9 grid whose row 3i+j lists the square in band i and
    stack j, entry 3k+l of that row being the board's entry (3i+k, 3j+l).
    Applied to its own result it gives the board back, and the row check
    on the regrouped grid is the square check on the board. *)
Theorem _get_squares_regroups (s : grid) :
  shaped s →
  ∃ t,
    _get_squares s = Return t s ∧
    shaped t ∧
    _get_squares t = Return s t ∧
    (∀ i j k l,
       0 ≤ i ≤ 2 → 0 ≤ j ≤ 2 → 0 ≤ k ≤ 2 → 0 ≤ l ≤ 2 →
       ∃ v, get_value (3 * i + j) (3 * k + l) t = Return v t ∧
            get_value (3 * i + k) (3 * j + l) s = Return v s) ∧
    ∃ ok, _is_valid_squares s = Return ok s ∧ _is_valid_rows t = Return ok t.
Proof.
  intros Hs. exists (view s square_groups).
  pose proof (shaped_view_squares s Hs) as Ht.
  split; [by unfold _get_squares, reading; rewrite squares_view|].
  split; [done|].
  split; [by unfold _get_squares, reading; rewrite squares_of_view_squares|].
  split.
  - intros i j k l Hi Hj Hk Hl.
    exists (cell s (npos (3 * i + k) (3 * j + l))).
    split; [|apply get_value_Z; [done|lia..]].
    rewrite get_value_Z by (done || lia). f_equal.
    replace (npos (3 * i + j) (3 * k + l))
      with ((3 * Z.to_nat i + Z.to_nat j)%nat, (3 * Z.to_nat k + Z.to_nat l)%nat)
      by (unfold npos; f_equal; lia).
    replace (npos (3 * i + k) (3 * j + l))
      with ((3 * Z.to_nat i + Z.to_nat k)%nat, (3 * Z.to_nat j + Z.to_nat l)%nat)
      by (unfold npos; f_equal; lia).
    apply cell_view_squares; [done|lia..].
  - exists (forallb (group_ok s) square_groups).
    split; [by apply _is_valid_squares_shaped|].
    unfold _is_valid_rows. by rewrite forallb_view.
Qed.

Lemma _get_squares_regroups_witness :
  ∃ t,
    _get_squares main_board = Return t main_board ∧
    shaped t ∧
    _get_squares t = Return main_board t ∧
    (∀ i j k l,
       0 ≤ i ≤ 2 → 0 ≤ j ≤ 2 → 0 ≤ k ≤ 2 → 0 ≤ l ≤ 2 →
       ∃ v, get_value (3 * i + j) (3 * k + l) t = Return v t ∧
            get_value (3 * i + k) (3 * j + l) main_board =
            Return v main_board) ∧
    ∃ ok, _is_valid_squares main_board = Return ok main_board ∧
          _is_valid_rows t = Return ok t.
Proof. apply (_get_squares_regroups main_board shaped_main_board). Defined.

(** ** Grids that are not 9x9 *)

Lemma columns_of_short_row s row :
  row ∈ s → (length row < 9)%nat → columns_of s = None.
Proof.
  intros Hrow Hlen. unfold columns_of. apply mapM_None.
  apply Exists_exists. exists (Z.of_nat (length row)). split.
  - unfold Py.range. apply elem_of_seqZ. lia.
  - apply mapM_None. apply Exists_exists. exists row. split; [done|].
    rewrite getitem_of_nat. by apply lookup_ge_None.
Qed.

(** X10. On a grid with a row of fewer than 9 entries, [is_valid] returns
    False when some row fails the repeated-digit test (the column view is
    then never built), and otherwise raises [IndexError] while building the
    column view.  In both cases the grid is left as it was. *)
Theorem is_valid_short_row (s : grid) (row : list Z) :
  row ∈ s → (length row < 9)%nat →
  (Exists (λ r, _is_valid r = false) s → is_valid s = Return false s) ∧
  (Forall (λ r, _is_valid r = true) s → is_valid s = Raise IndexError s).
Proof.
  intros Hrow Hlen. split.
  - intros Hbad. unfold is_valid. erewrite bind_Return; [|reflexivity].
    assert (forallb _is_valid s = false) as ->; [|done].
    apply Exists_exists in Hbad as (r & Hr & Hbad).
    destruct (forallb _is_valid s) eqn:Hall; [|done].
    rewrite forallb_forall in Hall. apply list_elem_of_In in Hr.
    by rewrite (Hall r Hr) in Hbad.
  - intros Hgood. unfold is_valid. erewrite bind_Return; [|reflexivity].
    assert (forallb _is_valid s = true) as ->.
    { apply forallb_forall. intros r Hr. apply list_elem_of_In in Hr.
      rewrite Forall_forall in Hgood. by apply Hgood. }
    unfold bind, _is_valid_columns, bind, _get_columns, reading.
    by rewrite (columns_of_short_row s row Hrow Hlen).
Qed.

Lemma is_valid_short_row_witness :
  (Exists (λ r, _is_valid r = false) ragged →
   is_valid ragged = Return false ragged) ∧
  (Forall (λ r, _is_valid r = true) ragged →
   is_valid ragged = Raise IndexError ragged).
Proof.
  apply (is_valid_short_row ragged [4; 5; 6]).
  - apply list_elem_of_further, list_elem_of_here.
  - simpl. lia.
Defined.

(** * Further properties of the solver *)

(** ** Grids and their cells *)

Lemma row_groups_inside : Forall (Forall inside) row_groups.
Proof.
  apply (bool_decide_unpack (Forall (Forall inside) row_groups)).
  by vm_compute.
Qed.

Lemma view_ext s t gs :
  Forall (Forall inside) gs →
  (∀ p, inside p → cell s p = cell t p) →
  view s gs = view t gs.
Proof.
  intros Hin Hcells. unfold view. apply Forall_fmap_ext.
  eapply Forall_impl; [exact Hin|]. intros g Hg. cbn.
  apply Forall_fmap_ext. eapply Forall_impl; [exact Hg|]. auto.
Qed.

Lemma cells_ext s t :
  shaped s → shaped t → (∀ p, inside p → cell s p = cell t p) → s = t.
Proof.
  intros Hs Ht Hcells. rewrite (rows_view s Hs), (rows_view t Ht).
  by apply view_ext; [apply row_groups_inside|].
Qed.

Lemma concat_cells s : shaped s → concat s = cell s <$> all_pos.
Proof. intros Hs. split_grid81 s Hs. reflexivity. Qed.

Lemma filled_cells s :
  shaped s → filled_b s = true ↔ ∀ p, inside p → cell s p ≠ 0.
Proof.
  intros Hs. unfold filled_b. rewrite (concat_cells s Hs), forallb_fmap.
  rewrite forallb_forall. split.
  - intros H p Hp. apply inside_all_pos, list_elem_of_In, H in Hp.
    apply negb_true_iff, Z.eqb_neq in Hp. done.
  - intros H p Hp. apply list_elem_of_In in Hp.
    pose proof all_pos_inside as Hin. rewrite Forall_forall in Hin.
    apply negb_true_iff, Z.eqb_neq. by apply H, Hin.
Qed.

Lemma digits_cell s p :
  shaped s → digits s → inside p → 0 ≤ cell s p ≤ 9.
Proof.
  intros Hs Hd Hp. destruct (cell_lookup s p Hs Hp) as (row & Hrow & Hc).
  unfold digits in Hd.
  eapply Forall_lookup_1 in Hd; [|exact Hrow].
  by eapply Forall_lookup_1 in Hd; [|exact Hc].
Qed.

Lemma cells_digits s :
  shaped s → (∀ p, inside p → 0 ≤ cell s p ≤ 9) → digits s.
Proof.
  intros Hs Hcells. unfold digits.
  apply Forall_lookup. intros r row Hrow.
  apply Forall_lookup. intros c v Hv.
  assert (inside (r, c)) as Hp.
  { split; cbn.
    - apply lookup_lt_Some in Hrow. destruct Hs as [Hlen _]. lia.
    - destruct Hs as [_ Hrows]. eapply Forall_lookup_1 in Hrows; [|exact Hrow].
      apply lookup_lt_Some in Hv. cbn in Hrows. lia. }
  specialize (Hcells (r, c) Hp). unfold cell in Hcells. cbn in Hcells.
  by rewrite Hrow, Hv in Hcells.
Qed.

(** ** Lexicographic order *)

Lemma lex_le_refl l : lex_le l l.
Proof. induction l; by constructor. Qed.

Lemma lex_le_app_lt a x y l k : x < y → lex_le (a ++ x :: l) (a ++ y :: k).
Proof. intros Hxy. induction a; cbn; by constructor. Qed.

(** ** The search *)

Lemma scan_first body s ps :
  shaped s → Forall inside ps →
  (Forall (λ p, cell s p ≠ 0) ps ∧
   scan (zpos <$> ps) body s = Return NotSolvable s) ∨
  (∃ pre p post,
     ps = pre ++ p :: post ∧ Forall (λ q, cell s q ≠ 0) pre ∧
     cell s p = 0 ∧
     scan (zpos <$> ps) body s = body (Z.of_nat p.1) (Z.of_nat p.2) s).
Proof.
  intros Hs. induction ps as [|p ps IH]; intros Hin.
  { left. by split. }
  apply Forall_cons in Hin as [Hp Hin].
  rewrite fmap_cons. unfold zpos at 1 3. cbn [scan].
  erewrite bind_Return; [|by apply get_value_inside].
  destruct (Z.eqb_spec (cell s p) 0) as [E|E].
  - right. exists [], p, ps. by repeat split.
  - destruct (IH Hin) as [[Hnz Hrun]|(pre & q & post & -> & Hpre & Hz & Hrun)].
    + left. split; [by constructor|done].
    + right. exists (p :: pre), q, post. repeat split; try done.
      by constructor.
Qed.

Lemma solution_filled s t :
  shaped s → (∀ p, inside p → cell s p ≠ 0) → solution s t → t = s.
Proof.
  intros Hs Hnz (Ht & _ & Hext & _). apply cells_ext; [done..|].
  intros p Hp. apply Hext; [done|]. by apply Hnz.
Qed.

Lemma solution_step s p t :
  shaped s → inside p → cell s p = 0 → solution s t →
  cell t p ∈ candidates s p ∧ solution (upd s p (cell t p)) t.
Proof.
  intros Hs Hp Hz (Ht & Hfin & Hext & Hrange).
  pose proof (Hrange p Hp Hz) as Hw.
  assert (extends (upd s p (cell t p)) t) as Hext'.
  { intros q Hq Hne. destruct (decide (p = q)) as [<-|Hpq].
    - by rewrite cell_upd_eq.
    - rewrite cell_upd_ne in Hne |- * by done. by apply Hext. }
  split.
  - apply candidates_spec. split; [done|].
    apply (valid_b_extends _ t Hext').
    unfold finished_b in Hfin. by apply andb_true_iff in Hfin as [_ ?].
  - split; [done|]. split; [done|]. split; [done|].
    intros q Hq Hzq. destruct (decide (p = q)) as [<-|Hpq]; [done|].
    rewrite cell_upd_ne in Hzq by done. by apply Hrange.
Qed.

Lemma solution_upd s p v t :
  shaped s → inside p → cell s p = 0 → 1 ≤ v ≤ 9 →
  solution (upd s p v) t → solution s t ∧ cell t p = v.
Proof.
  intros Hs Hp Hz Hv (Ht & Hfin & Hext & Hrange).
  assert (cell t p = v) as Hcell.
  { pose proof (Hext p Hp) as Hpv. rewrite cell_upd_eq in Hpv by done.
    apply Hpv. lia. }
  split; [|done]. split; [done|]. split; [done|]. split.
  - by eapply extends_upd.
  - intros q Hq Hzq. destruct (decide (p = q)) as [<-|Hpq]; [lia|].
    apply Hrange; [done|]. by rewrite cell_upd_ne.
Qed.

Lemma try_values_full recurse s p values :
  shaped s → inside p → cell s p = 0 →
  (∀ v, v ∈ values →
        1 ≤ v ≤ 9 ∧ solve_full (upd s p v) (recurse (upd s p v))) →
  ∃ a s',
    try_values recurse (Z.of_nat p.1) (Z.of_nat p.2) values s = Return a s' ∧
    match a with
    | Solved =>
        ∃ v before after,
          values = before ++ v :: after ∧
          (∀ u t, u ∈ before → ¬ solution (upd s p u) t) ∧
          solution (upd s p v) s' ∧
          ∀ t, solution (upd s p v) t → lex_le (concat s') (concat t)
    | NotSolvable =>
        s' = s ∧ ∀ u t, u ∈ values → ¬ solution (upd s p u) t
    end.
Proof.
  intros Hs Hp Hz. induction values as [|v rest IH]; intros Hrec.
  { exists NotSolvable, s. split; [done|]. split; [done|].
    intros u t Hu. by apply elem_of_nil in Hu. }
  cbn [try_values].
  erewrite bind_Return; [|by apply set_value_inside].
  destruct (Hrec v) as (Hv & a & s' & Hrun & Ha); [apply list_elem_of_here|].
  erewrite bind_Return; [|exact Hrun].
  destruct a.
  - destruct Ha as [Hsol Hleast]. exists Solved, s'. split; [done|].
    exists v, [], rest. split; [done|]. split; [|done].
    intros u t Hu. by apply elem_of_nil in Hu.
  - destruct Ha as [-> Hnone].
    erewrite bind_Return; [|apply set_value_inside; [by apply shaped_upd|done]].
    rewrite upd_upd, (upd_same s p 0 Hz).
    destruct IH as (a & s' & Hrun' & Ha).
    { intros w Hw. apply Hrec. by apply list_elem_of_further. }
    exists a, s'. split; [done|]. destruct a.
    + destruct Ha as (w & before & after & -> & Hbefore & Hsol & Hleast).
      exists w, (v :: before), after. split; [done|]. split; [|done].
      intros u t Hu. apply elem_of_cons in Hu as [->|Hu]; [apply Hnone|].
      by apply Hbefore.
    + destruct Ha as [-> Hrest]. split; [done|].
      intros u t Hu. apply elem_of_cons in Hu as [->|Hu]; [apply Hnone|].
      by apply Hrest.
Qed.

Lemma sorted_after (before after : list Z) (v w : Z) :
  StronglySorted Z.lt (before ++ v :: after) → w ∈ after → v < w.
Proof.
  induction before as [|b before IH]; cbn; intros Hsorted Hw.
  - apply StronglySorted_inv in Hsorted as [_ Hall].
    rewrite Forall_forall in Hall. by apply Hall.
  - apply StronglySorted_inv in Hsorted as [Hrest _]. by apply IH.
Qed.

Lemma lex_le_first_difference s' t pre p post :
  shaped s' → shaped t →
  all_pos = pre ++ p :: post →
  Forall (λ q, cell s' q = cell t q) pre →
  cell s' p < cell t p →
  lex_le (concat s') (concat t).
Proof.
  intros Hs' Ht Hpos Hpre Hlt.
  rewrite (concat_cells s' Hs'), (concat_cells t Ht), Hpos.
  rewrite !fmap_app, !fmap_cons.
  assert (cell s' <$> pre = cell t <$> pre) as -> by (by apply Forall_fmap_ext).
  by apply lex_le_app_lt.
Qed.

Lemma solve_fuel_full n :
  ∀ s, shaped s → (count_zeros s < n)%nat → solve_full s (solve_fuel n s).
Proof.
  induction n as [|n IH]; intros s Hs Hn; [lia|].
  rewrite solve_fuel_unfold, is_finished_shaped by done.
  destruct (finished_b s) eqn:Hfin.
  { assert (∀ p, inside p → cell s p ≠ 0) as Hnz.
    { apply filled_cells; [done|]. unfold finished_b in Hfin.
      by apply andb_true_iff in Hfin as [? _]. }
    exists Solved, s. split; [done|]. split.
    - split; [done|]. split; [done|]. split; [apply extends_refl|].
      intros p Hp Hz. by destruct (Hnz p Hp).
    - intros t Ht. rewrite (solution_filled s t Hs Hnz Ht). apply lex_le_refl. }
  rewrite cells_all_pos.
  destruct (scan_first
              (λ row column,
                 do values <- valid_values row column;
                 try_values (solve_fuel n) row column values)
              s all_pos Hs all_pos_inside)
    as [[Hnz ->]|(pre & p & post & Hpos & Hpre & Hz & ->)].
  { exists NotSolvable, s. split; [done|]. split; [done|].
    intros t Ht.
    assert (∀ q, inside q → cell s q ≠ 0) as Hall.
    { intros q Hq. rewrite Forall_forall in Hnz. by apply Hnz, inside_all_pos. }
    rewrite (solution_filled s t Hs Hall Ht) in Ht.
    destruct Ht as (_ & Hfin' & _). congruence. }
  assert (inside p) as Hp.
  { pose proof all_pos_inside as Hin. rewrite Forall_forall in Hin.
    apply Hin. rewrite Hpos. apply elem_of_app. right. apply list_elem_of_here. }
  erewrite bind_Return; [|by apply valid_values_shaped].
  destruct (try_values_full (solve_fuel n) s p (candidates s p) Hs Hp Hz)
    as (a & s' & Hrun & Ha).
  { intros v Hv. pose proof (candidates_range s p v Hv) as Hrange.
    split; [done|]. apply IH; [by apply shaped_upd|].
    pose proof (count_zeros_upd s p v Hs Hp Hz). lia. }
  exists a, s'. split; [done|]. destruct a.
  - destruct Ha as (v & before & after & Hvals & Hbefore & Hsol & Hleast).
    assert (1 ≤ v ≤ 9) as Hv.
    { apply (candidates_range s p). rewrite Hvals.
      apply elem_of_app. right. apply list_elem_of_here. }
    destruct (solution_upd s p v s' Hs Hp Hz Hv Hsol) as [Hsol' Hcell].
    split; [done|]. intros t Ht.
    destruct (solution_step s p t Hs Hp Hz Ht) as [Hw Hstep].
    rewrite Hvals in Hw. apply elem_of_app in Hw as [Hw|Hw];
      [by destruct (Hbefore _ t Hw)|].
    apply elem_of_cons in Hw as [Hw|Hw].
    + apply Hleast. by rewrite <- Hw.
    + apply (lex_le_first_difference s' t pre p post); try done.
      * apply Hsol'.
      * apply Ht.
      * pose proof all_pos_inside as Hin. rewrite Hpos in Hin.
        apply Forall_app in Hin as [Hin _].
        rewrite Forall_forall in Hin, Hpre |- *. intros q Hq.
        destruct Hsol' as (_ & _ & Hext1 & _). destruct Ht as (_ & _ & Hext2 & _).
        rewrite Hext1, Hext2; auto.
      * rewrite Hcell. apply (sorted_after before after); [|done].
        rewrite <- Hvals. apply candidates_sorted.
  - destruct Ha as [-> Hnone]. split; [done|]. intros t Ht.
    destruct (solution_step s p t Hs Hp Hz Ht) as [Hw Hstep].
    by apply (Hnone _ t Hw).
Qed.

Lemma solve_full_shaped s : shaped s → solve_full s (solve s).
Proof.
  intros Hs. apply solve_fuel_full; [done|].
  pose proof (count_zeros_bound s Hs). lia.
Qed.

(** ** Boards without solution *)

Lemma not_solvable_solve s :
  shaped s → ¬ solvable s → solve s = Return NotSolvable s.
Proof.
  intros Hs Hno. destruct (solve_full_shaped s Hs) as (a & s' & Hrun & Ha).
  destruct a.
  - destruct Ha as [Hsol _]. destruct Hno. by exists s'.
  - destruct Ha as [-> _]. done.
Qed.

(** [dead_end] passes [is_valid] and yet has no solution: cell (0, 8) can
    hold none of 1..7 (row 0) and neither 8 nor 9 (column 8). *)
Lemma dead_end_not_solvable : ¬ solvable dead_end.
Proof.
  intros (t & Ht & Hfin & Hext & Hrange).
  unfold finished_b in Hfin. apply andb_true_iff in Hfin as [_ Hvalid].
  apply valid_b_partitions in Hvalid as (Hrows & Hcols & _).
  assert (1 ≤ cell t (0, 8)%nat ≤ 9) as Hx.
  { apply Hrange; [split; cbn; lia|reflexivity]. }
  assert (∀ q v, inside q → cell dead_end q = v → v ≠ 0 → cell t q = v)
    as Hclue.
  { intros q v Hq <- Hv. by apply Hext. }
  assert (∀ c v, (c < 8)%nat → cell dead_end (0, c)%nat = v → v ≠ 0 →
                 cell t (0, 8)%nat ≠ v) as Hrow.
  { intros c v Hc Hcell Hv E.
    pose proof (Hclue (0, c)%nat v) as Hq.
    rewrite <- Hq in E; [|split; cbn; lia|done..].
    apply (Hrows 0%nat c 8%nat); [lia..| |done].
    rewrite Hq; [done|split; cbn; lia|done..]. }
  assert (∀ r v, (0 < r < 9)%nat → cell dead_end (r, 8)%nat = v → v ≠ 0 →
                 cell t (0, 8)%nat ≠ v) as Hcol.
  { intros r v Hr Hcell Hv E.
    pose proof (Hclue (r, 8)%nat v) as Hq.
    rewrite <- Hq in E; [|split; cbn; lia|done..].
    apply (Hcols 8%nat r 0%nat); [lia..| |done].
    rewrite Hq; [done|split; cbn; lia|done..]. }
  pose proof (Hrow 0%nat 1). pose proof (Hrow 1%nat 2).
  pose proof (Hrow 2%nat 3). pose proof (Hrow 3%nat 4).
  pose proof (Hrow 4%nat 5). pose proof (Hrow 5%nat 6).
  pose proof (Hrow 6%nat 7).
  pose proof (Hcol 3%nat 9). pose proof (Hcol 4%nat 8).
  assert (cell t (0, 8)%nat ≠ 1) by auto with lia.
  assert (cell t (0, 8)%nat ≠ 2) by auto with lia.
  assert (cell t (0, 8)%nat ≠ 3) by auto with lia.
  assert (cell t (0, 8)%nat ≠ 4) by auto with lia.
  assert (cell t (0, 8)%nat ≠ 5) by auto with lia.
  assert (cell t (0, 8)%nat ≠ 6) by auto with lia.
  assert (cell t (0, 8)%nat ≠ 7) by auto with lia.
  assert (cell t (0, 8)%nat ≠ 8) by auto with lia.
  assert (cell t (0, 8)%nat ≠ 9) by auto with lia.
  lia.
Qed.

(** C6. On a constructed board that carries a contradiction (two equal
    clues in a column; a failed [is_valid]; or, most generally, no way to
    fill the empty cells with digits of 1..9 so that the board is
    finished), [solve] returns [None]: it neither raises nor runs on, and
    the board is left as it was. *)
Theorem solve_contradiction_not_solvable (board s : grid) :
  Board_init board = inr s →
  contradictory s →
  solve s = Return NotSolvable s.
Proof.
  intros Hinit Hbad. apply Board_init_inr in Hinit as (_ & Hs & _).
  apply not_solvable_solve; [done|].
  destruct Hbad as [Hclash|[Hinv|Hno]]; [| |done].
  - destruct Hclash as (r1 & r2 & c & v & Hr1 & Hr2 & Hc & Hne & Hv & Hg1 & Hg2).
    rewrite get_value_Z in Hg1, Hg2 by done.
    injection Hg1 as Hg1. injection Hg2 as Hg2.
    apply invalid_not_solvable.
    apply (column_clash_invalid s (Z.to_nat r1) (Z.to_nat r2) (Z.to_nat c));
      unfold npos in *; try lia; congruence.
  - rewrite is_valid_shaped in Hinv by done. injection Hinv as Hinv.
    by apply invalid_not_solvable.
Qed.

Lemma solve_contradiction_not_solvable_witness :
  solve column_clash = Return NotSolvable column_clash ∧
  (is_valid dead_end = Return true dead_end ∧
   solve dead_end = Return NotSolvable dead_end).
Proof.
  split; [|split; [reflexivity|]].
  - apply (solve_contradiction_not_solvable column_clash column_clash);
      [reflexivity|].
    left. exists 0, 4, 0, 5.
    repeat split; try lia; reflexivity.
  - apply (solve_contradiction_not_solvable dead_end dead_end);
      [reflexivity|].
    right. right. exact dead_end_not_solvable.
Defined.

Lemma solve_finished s :
  shaped s → finished_b s = true → solve s = Return Solved s.
Proof.
  intros Hs Hfin. unfold solve.
  rewrite solve_fuel_unfold, is_finished_shaped by done. by rewrite Hfin.
Qed.

(** A decidable sufficient condition for [solution]. *)
Lemma solution_check s t :
  shaped t → finished_b t = true →
  Forall (λ p, (cell s p ≠ 0 → cell t p = cell s p) ∧
               (cell s p = 0 → 1 ≤ cell t p ≤ 9)) all_pos →
  solution s t.
Proof.
  intros Ht Hfin Hall. rewrite Forall_forall in Hall.
  split; [done|]. split; [done|]. split.
  - intros p Hp. by apply Hall, inside_all_pos.
  - intros p Hp. by apply Hall, inside_all_pos.
Qed.

Lemma shaped_twin_puzzle : shaped twin_puzzle.
Proof. split; [reflexivity|]. by repeat constructor. Qed.

Lemma shaped_solved_grid : shaped solved_grid.
Proof. split; [reflexivity|]. by repeat constructor. Qed.

Lemma shaped_twin_solution : shaped twin_solution.
Proof. split; [reflexivity|]. by repeat constructor. Qed.

Lemma twin_solution_solves : solution twin_puzzle twin_solution.
Proof.
  apply solution_check; [exact shaped_twin_solution|by vm_compute|].
  apply (bool_decide_unpack _). by vm_compute.
Qed.

(** X12. The search tries the empty cells row by row and the digits in
    ascending order, so the grid [solve] returns is a solution and, read
    row by row, it comes first among all solutions of the grid it was
    entered with. *)
Theorem solve_least_solution (s s' t : grid) :
  shaped s →
  solve s = Return Solved s' →
  solution s t →
  solution s s' ∧ lex_le (concat s') (concat t).
Proof.
  intros Hs Hrun Ht.
  destruct (solve_full_shaped s Hs) as (a & s2 & Hrun2 & Ha).
  rewrite Hrun in Hrun2. injection Hrun2 as <- <-.
  destruct Ha as [Hsol Hleast]. split; [done|]. by apply Hleast.
Qed.

Lemma solve_least_solution_witness :
  solution twin_puzzle solved_grid ∧
  lex_le (concat solved_grid) (concat twin_solution).
Proof.
  apply (solve_least_solution twin_puzzle solved_grid twin_solution).
  - exact shaped_twin_puzzle.
  - vm_compute. reflexivity.
  - exact twin_solution_solves.
Defined.

(** ** Finished boards *)

Lemma groups_length : Forall (λ g : list pos, length g = 9%nat) groups.
Proof.
  apply (bool_decide_unpack (Forall (λ g : list pos, length g = 9%nat) groups)).
  by vm_compute.
Qed.

Lemma elem_of_one_to_nine v : v ∈ one_to_nine ↔ 1 ≤ v ≤ 9.
Proof.
  change one_to_nine with (seqZ 1 9). rewrite elem_of_seqZ. lia.
Qed.

Lemma NoDup_one_to_nine : NoDup one_to_nine.
Proof. change one_to_nine with (seqZ 1 9). apply NoDup_seqZ. Qed.

Lemma views_groups s :
  view s row_groups ++ view s column_groups ++ view s square_groups =
  view s groups.
Proof. unfold view, groups. by rewrite !fmap_app. Qed.

Lemma own_row_group p : inside p → row_group p.1 ∈ groups ∧ p ∈ row_group p.1.
Proof.
  destruct p as [r c]. intros [Hr Hc]. cbn in *. split.
  - apply elem_of_groups. left. by exists r.
  - apply elem_of_row_group. by exists c.
Qed.

(** A grid of digits is finished iff each of the 27 groups holds the
    digits 1..9, each once. *)
Lemma finished_permutations s :
  shaped s → digits s →
  finished_b s = true ↔
  Forall (λ values, values ≡ₚ one_to_nine) (view s groups).
Proof.
  intros Hs Hd. unfold view. rewrite Forall_fmap, Forall_forall.
  unfold finished_b. rewrite andb_true_iff, (filled_cells s Hs). split.
  - intros [Hfilled Hvalid] g Hg. unfold compose.
    pose proof groups_inside as Hin. rewrite Forall_forall in Hin.
    specialize (Hin g Hg). rewrite Forall_forall in Hin.
    pose proof groups_NoDup as Hnd. rewrite Forall_forall in Hnd.
    pose proof groups_length as Hlen. rewrite Forall_forall in Hlen.
    rewrite valid_b_pairwise in Hvalid.
    apply submseteq_length_Permutation.
    + apply NoDup_submseteq.
      * apply NoDup_fmap_2_strong; [|by apply Hnd].
        intros p q Hp Hq E. destruct (decide (p = q)) as [|Hpq]; [done|].
        destruct (Hvalid g p q Hg Hp Hq Hpq); [|done].
        apply Hfilled. by apply Hin.
      * intros v Hv. apply list_elem_of_fmap in Hv as (p & -> & Hp).
        apply elem_of_one_to_nine.
        pose proof (digits_cell s p Hs Hd (Hin p Hp)).
        pose proof (Hfilled p (Hin p Hp)). lia.
    + rewrite length_fmap, (Hlen g Hg). done.
  - intros Hperm. split.
    + intros p Hp. destruct (own_row_group p Hp) as [Hg Hpg].
      assert (cell s p ∈ one_to_nine) as Hv.
      { pose proof (Hperm _ Hg) as Hrow. unfold compose in Hrow.
        rewrite <- Hrow. by apply list_elem_of_fmap_2. }
      apply elem_of_one_to_nine in Hv. lia.
    + unfold valid_b. apply forallb_forall. intros g Hg.
      apply list_elem_of_In in Hg. unfold group_ok.
      apply _is_valid_NoDup, NoDup_filter.
      specialize (Hperm g Hg). unfold compose in Hperm. rewrite Hperm.
      apply NoDup_one_to_nine.
Qed.

Lemma get_columns_shaped s :
  shaped s → _get_columns s = Return (view s column_groups) s.
Proof. intros Hs. unfold _get_columns, reading. by rewrite columns_view. Qed.

Lemma get_squares_shaped s :
  shaped s → _get_squares s = Return (view s square_groups) s.
Proof. intros Hs. unfold _get_squares, reading. by rewrite squares_view. Qed.

(** X13. On a board accepted by [Board.__init__], [is_finished] answers
    true exactly when every row, every column delivered by [_get_columns]
    and every square delivered by [_get_squares] is a rearrangement of the
    digits 1 to 9. *)
Theorem is_finished_iff_permutations (board s : grid) :
  Board_init board = inr s →
  ∃ columns squares,
    _get_columns s = Return columns s ∧
    _get_squares s = Return squares s ∧
    (is_finished s = Return true s ↔
     Forall (λ values, values ≡ₚ one_to_nine) (s ++ columns ++ squares)).
Proof.
  intros Hinit. apply Board_init_inr in Hinit as (_ & Hs & Hd).
  exists (view s column_groups), (view s square_groups).
  split; [by apply get_columns_shaped|]. split; [by apply get_squares_shaped|].
  rewrite (rows_view s Hs) at 3. rewrite views_groups.
  rewrite <- (finished_permutations s Hs Hd), is_finished_shaped by done.
  split; [by intros [= ->]|by intros ->].
Qed.

Lemma is_finished_iff_permutations_witness :
  ∃ columns squares,
    _get_columns solved_grid = Return columns solved_grid ∧
    _get_squares solved_grid = Return squares solved_grid ∧
    (is_finished solved_grid = Return true solved_grid ↔
     Forall (λ values, values ≡ₚ one_to_nine)
            (solved_grid ++ columns ++ squares)).
Proof.
  apply (is_finished_iff_permutations solved_grid solved_grid). reflexivity.
Defined.

(** X14. Calling [solve] a second time changes nothing: it gives the same
    answer as the first call and leaves the grid the first call left. *)
Theorem solve_again (s : grid) :
  shaped s → (do_ solve; solve) s = solve s.
Proof.
  intros Hs. destruct (solve_post_shaped s Hs) as (a & s' & Hrun & Hs' & Ha).
  erewrite bind_Return; [|exact Hrun]. rewrite Hrun. destruct a.
  - destruct Ha as [Hfin _]. by apply solve_finished.
  - by subst s'.
Qed.

Lemma solve_again_witness :
  (do_ solve; solve) nearly_solved = solve nearly_solved.
Proof. apply (solve_again nearly_solved). exact shaped_nearly_solved. Defined.

(** X15. [solve] writes nothing but digits of 1..9: the board it returns
    for a board accepted by [Board.__init__] passes the checks of
    [Board.__init__] again, every cell reads as a digit of 1..9, and every
    row, column and square of it is a rearrangement of the digits 1 to
    9. *)
Theorem solve_result_complete_board (board s s' : grid) :
  Board_init board = inr s →
  solve s = Return Solved s' →
  Board_init s' = inr s' ∧
  (∀ row column, 0 ≤ row ≤ 8 → 0 ≤ column ≤ 8 →
     ∃ value, get_value row column s' = Return value s' ∧ 1 ≤ value ≤ 9) ∧
  ∃ columns squares,
    _get_columns s' = Return columns s' ∧
    _get_squares s' = Return squares s' ∧
    Forall (λ values, values ≡ₚ one_to_nine) (s' ++ columns ++ squares).
Proof.
  intros Hinit Hrun. apply Board_init_inr in Hinit as (_ & Hs & Hd).
  destruct (solve_full_shaped s Hs) as (a & s2 & Hrun2 & Ha).
  rewrite Hrun in Hrun2. injection Hrun2 as <- <-.
  destruct Ha as [(Hs' & Hfin & Hext & Hrange) _].
  assert (∀ p, inside p → 1 ≤ cell s' p ≤ 9) as Hcells.
  { intros p Hp. destruct (decide (cell s p = 0)) as [Hz|Hnz].
    - by apply Hrange.
    - rewrite (Hext p Hp Hnz). pose proof (digits_cell s p Hs Hd Hp). lia. }
  assert (digits s') as Hd'.
  { apply cells_digits; [done|]. intros p Hp. specialize (Hcells p Hp). lia. }
  split; [by apply Board_init_accepts|]. split.
  - intros row column Hr Hc. exists (cell s' (npos row column)).
    split; [by apply get_value_Z|]. by apply Hcells, npos_inside.
  - exists (view s' column_groups), (view s' square_groups).
    split; [by apply get_columns_shaped|].
    split; [by apply get_squares_shaped|].
    rewrite (rows_view s' Hs') at 1. rewrite views_groups.
    by apply finished_permutations.
Qed.

Lemma solve_result_complete_board_witness :
  Board_init solved_grid = inr solved_grid ∧
  (∀ row column, 0 ≤ row ≤ 8 → 0 ≤ column ≤ 8 →
     ∃ value, get_value row column solved_grid = Return value solved_grid ∧
              1 ≤ value ≤ 9) ∧
  ∃ columns squares,
    _get_columns solved_grid = Return columns solved_grid ∧
    _get_squares solved_grid = Return squares solved_grid ∧
    Forall (λ values, values ≡ₚ one_to_nine)
           (solved_grid ++ columns ++ squares).
Proof.
  apply (solve_result_complete_board nearly_solved nearly_solved solved_grid);
    vm_compute; reflexivity.
Defined.

(** * Further properties of valid_values and __str__ *)

Lemma probe_wrap row column values :
  -9 ≤ row ≤ 8 → -9 ≤ column ≤ 8 →
  ∀ acc s, shaped s →
  probe row column values acc s =
  probe (row `mod` 9) (column `mod` 9) values acc s.
Proof.
  intros Hr Hc. induction values as [|v rest IH]; intros acc s Hs; [done|].
  cbn [probe].
  erewrite (bind_Return (set_value row column v));
    [|by apply set_value_mod].
  erewrite (bind_Return (set_value (row `mod` 9) (column `mod` 9) v));
    [|apply set_value_Z; [done|apply mod9_range..]].
  pose proof (shaped_upd s (npos (row `mod` 9) (column `mod` 9)) v Hs) as Hs'.
  rewrite !(bind_Return is_valid _ _ _ _ (is_valid_shaped _ Hs')).
  by apply IH.
Qed.

Lemma bind_ext_state {A B} (m m' : M A) (k k' : A → M B) s :
  m s = m' s →
  (∀ a s1, m' s = Return a s1 → k a s1 = k' a s1) →
  bind m k s = bind m' k' s.
Proof. intros E Hk. unfold bind. rewrite E. destruct (m' s); auto. Qed.

Lemma valid_values_wrap s row column :
  shaped s → -9 ≤ row ≤ 8 → -9 ≤ column ≤ 8 →
  valid_values row column s =
  Return (candidates s (npos (row `mod` 9) (column `mod` 9))) s.
Proof.
  intros Hs Hr Hc.
  pose proof (mod9_range row) as Hr'. pose proof (mod9_range column) as Hc'.
  rewrite <- (valid_values_Z s _ _ Hs Hr' Hc').
  unfold valid_values.
  erewrite (bind_Return (get_value row column)); [|by apply get_value_mod].
  erewrite (bind_Return (get_value (row `mod` 9) (column `mod` 9)));
    [|by apply get_value_Z].
  apply bind_ext_state; [by apply probe_wrap|].
  intros values s1 Hprobe.
  assert (shaped s1) as Hs1.
  { rewrite <- (Z2Nat.id (row `mod` 9)), <- (Z2Nat.id (column `mod` 9)) in Hprobe
      by lia.
    change (probe (Z.of_nat (npos (row `mod` 9) (column `mod` 9)).1)
                  (Z.of_nat (npos (row `mod` 9) (column `mod` 9)).2)
                  (Py.range 1 10) [] s = Return values s1) in Hprobe.
    rewrite probe_shaped in Hprobe by (by try apply npos_inside).
    injection Hprobe as _ <-. by apply shaped_upd. }
  apply bind_ext_state; [by apply set_value_wrap|done].
Qed.

(** X16. [valid_values] checks its subscripts no more than the cell
    accesses do.  On a 9x9 grid a subscript outside -9..8 raises
    [IndexError] before any cell is written, so the grid is as at entry;
    a subscript in -9..-1 is accepted and the answer is the one for the
    cell 9 rows or columns further on, again with the grid as at entry. *)
Theorem valid_values_subscripts (s : grid) :
  shaped s →
  (∀ row column,
     ¬ (-9 ≤ row ≤ 8 ∧ -9 ≤ column ≤ 8) →
     valid_values row column s = Raise IndexError s) ∧
  (∀ row column,
     -9 ≤ row ≤ 8 → -9 ≤ column ≤ 8 →
     valid_values row column s =
     valid_values (row `mod` 9) (column `mod` 9) s ∧
     ∃ values, valid_values row column s = Return values s).
Proof.
  intros Hs. split.
  - intros row column Hout. unfold valid_values, bind.
    by rewrite get_value_outside.
  - intros row column Hr Hc. rewrite (valid_values_wrap s row column) by done.
    split; [|by eexists].
    rewrite valid_values_Z by (done || apply mod9_range). done.
Qed.

Lemma valid_values_subscripts_witness :
  valid_values 9 0 main_board = Raise IndexError main_board ∧
  valid_values (-1) (-1) main_board = valid_values 8 8 main_board.
Proof.
  destruct (valid_values_subscripts main_board shaped_main_board)
    as [Hout Hwrap].
  split; [apply Hout; lia|]. apply (Hwrap (-1) (-1)); lia.
Defined.

(** ** The printed board determines the board *)

Lemma cell_char_code v :
  0 ≤ v ≤ 9 →
  nat_of_ascii (cell_char v) =
  if v =? 0 then 46%nat else (48 + Z.to_nat v)%nat.
Proof.
  intros Hv. unfold cell_char. destruct (v =? 0); [reflexivity|].
  apply nat_ascii_embedding. lia.
Qed.

Lemma cell_char_inj a b :
  0 ≤ a ≤ 9 → 0 ≤ b ≤ 9 → cell_char a = cell_char b → a = b.
Proof.
  intros Ha Hb E. apply (f_equal nat_of_ascii) in E.
  rewrite !cell_char_code in E by done.
  destruct (Z.eqb_spec a 0), (Z.eqb_spec b 0); lia.
Qed.

Lemma string_app_inj (a c b d : string) :
  String.length a = String.length c →
  (a ++ b)%string = (c ++ d)%string → a = c ∧ b = d.
Proof.
  revert c. induction a as [|x a IH]; intros [|y c]; cbn; try done.
  intros [= Hlen] [= -> E]. destruct (IH c Hlen E) as [-> ->]. done.
Qed.

Lemma render_row_inj row row' :
  length row = 9%nat → length row' = 9%nat →
  Forall (λ value, 0 ≤ value ≤ 9) row →
  Forall (λ value, 0 ≤ value ≤ 9) row' →
  render_row row = render_row row' → row = row'.
Proof.
  intros Hlen Hlen' Hd Hd' E.
  split_list9 row Hlen. split_list9 row' Hlen'.
  repeat match goal with
         | H : Forall _ (_ :: _) |- _ =>
             let Hh := fresh "Hh" in apply Forall_cons in H as [Hh H]
         end.
  cbn in E. injection E as E1 E2 E3 E4 E5 E6 E7 E8 E9.
  repeat f_equal; by apply cell_char_inj.
Qed.

Lemma Board_str_render s :
  shaped s → digits s → Board_str s = Return (render s) s.
Proof.
  intros [Hlen Hrows] Hd. split_list9 s Hlen.
  rewrite Board_str_rows. unfold render. unfold digits in Hd.
  repeat match goal with
         | H : Forall _ (_ :: _) |- _ =>
             let Hh := fresh "Hh" in apply Forall_cons in H as [Hh H]
         end.
  rewrite !format_row_render by done. reflexivity.
Qed.

Lemma render_inj s t :
  shaped s → digits s → shaped t → digits t → render s = render t → s = t.
Proof.
  intros [Hlen Hrows] Hd [Hlen' Hrows'] Hd' E. unfold digits in Hd, Hd'.
  split_list9 s Hlen. split_list9 t Hlen'.
  repeat match goal with
         | H : Forall _ (_ :: _) |- _ =>
             let Hh := fresh "Hh" in apply Forall_cons in H as [Hh H]
         end.
  unfold render in E. cbn [Py.join] in E.
  repeat match type of E with
         | (_ ++ _)%string = (_ ++ _)%string =>
             let Hrow := fresh "Hrow" in
             apply string_app_inj in E as [Hrow E];
             [|by rewrite ?render_row_length]
         end.
  repeat f_equal; by apply render_row_inj.
Qed.

(** X17. The printed form loses nothing: two boards accepted by
    [Board.__init__] for which [__str__] returns the same text are the same
    board, cell for cell. *)
Theorem Board_str_injective (board1 board2 s t : grid) (text : string) :
  Board_init board1 = inr s →
  Board_init board2 = inr t →
  Board_str s = Return text s →
  Board_str t = Return text t →
  s = t.
Proof.
  intros Hinit1 Hinit2 Hstr1 Hstr2.
  apply Board_init_inr in Hinit1 as (_ & Hs & Hd).
  apply Board_init_inr in Hinit2 as (_ & Ht & Hd').
  rewrite Board_str_render in Hstr1, Hstr2 by done.
  injection Hstr1 as Hstr1. injection Hstr2 as Hstr2.
  apply render_inj; try done. congruence.
Qed.

Lemma Board_str_injective_witness : main_board = main_board.
Proof.
  apply (Board_str_injective main_board main_board main_board main_board
           (render main_board)); vm_compute; reflexivity.
Defined.

(** * Further properties of _is_valid and of the candidates *)

Lemma filter_sublist_mono (P : Z → Prop) `{!∀ x, Decision (P x)} l k :
  sublist l k → sublist (filter P l) (filter P k).
Proof.
  induction 1 as [|x l k Hsub IH|x l k Hsub IH]; [constructor|..];
    rewrite ?filter_cons; case_decide; try done; by constructor.
Qed.

(** X18. [_is_valid] looks only at which non-zero values occur and how
    often: it answers true exactly when no non-zero value occurs twice,
    gives the same answer for any rearrangement of the values, ignores
    zeros, and a list obtained by dropping entries from a list that passes
    passes too. *)
Theorem _is_valid_repeats_only (values values' : list Z) :
  (_is_valid values = true ↔ NoDup (filter (λ value, value ≠ 0) values)) ∧
  (values ≡ₚ values' → _is_valid values = _is_valid values') ∧
  (sublist values' values → _is_valid values = true →
   _is_valid values' = true) ∧
  _is_valid (0 :: values) = _is_valid values.
Proof.
  split; [apply _is_valid_NoDup|]. split; [|split].
  - intros Hperm. apply Bool.eq_iff_eq_true.
    rewrite !_is_valid_NoDup. by rewrite Hperm.
  - intros Hsub. rewrite !_is_valid_NoDup. intros Hnd.
    apply (sublist_NoDup _ _ Hnd). by apply filter_sublist_mono.
  - unfold _is_valid. by rewrite filter_cons, decide_False by (intros H; lia).
Qed.

(** X19. Filling another empty cell can only remove candidates: after
    [set_value] has written any value into an empty cell, [valid_values]
    for a different cell returns no digit that it did not return before. *)
Theorem valid_values_shrink (s : grid) (row column row' column' w : Z) :
  shaped s →
  0 ≤ row ≤ 8 → 0 ≤ column ≤ 8 → 0 ≤ row' ≤ 8 → 0 ≤ column' ≤ 8 →
  (row', column') ≠ (row, column) →
  get_value row' column' s = Return 0 s →
  ∃ before after s',
    valid_values row column s = Return before s ∧
    (do_ set_value row' column' w; valid_values row column) s =
      Return after s' ∧
    ∀ value, value ∈ after → value ∈ before.
Proof.
  intros Hs Hr Hc Hr' Hc' Hne Hget.
  set (p := npos row column). set (q := npos row' column').
  assert (inside p) as Hp by (by apply npos_inside).
  assert (inside q) as Hq by (by apply npos_inside).
  assert (q ≠ p) as Hqp.
  { intros E. apply npos_eq in E; [done|lia..]. }
  rewrite get_value_Z in Hget by done. injection Hget as Hz. fold q in Hz.
  exists (candidates s p), (candidates (upd s q w) p), (upd s q w).
  split; [by apply valid_values_Z|]. split.
  - erewrite bind_Return; [|by apply set_value_Z].
    apply valid_values_Z; [by apply shaped_upd|done..].
  - intros v. rewrite !candidates_spec. intros [Hv Hvalid]. split; [done|].
    apply (valid_b_extends _ (upd (upd s q w) p v)); [|done].
    intros r Hin Hnz. destruct (decide (p = r)) as [<-|Hpr].
    + rewrite !cell_upd_eq by (by try apply shaped_upd). done.
    + rewrite cell_upd_ne in Hnz by done. rewrite !cell_upd_ne; try done.
      intros <-. done.
Qed.

Lemma valid_values_shrink_witness :
  ∃ before after s',
    valid_values 0 0 nearly_solved = Return before nearly_solved ∧
    (do_ set_value 0 4 8; valid_values 0 0) nearly_solved =
      Return after s' ∧
    ∀ value, value ∈ after → value ∈ before.
Proof.
  apply (valid_values_shrink nearly_solved 0 0 0 4 8);
    [exact shaped_nearly_solved|lia|lia|lia|lia|done|reflexivity].
Defined.

(** * Row objects and sharing *)

Lemma index_fmap {A B} (f : A → B) (l : list A) (i : Z) :
  Py.index (f <$> l) i = Py.index l i.
Proof. unfold Py.index. by rewrite length_fmap. Qed.

Lemma getitem_fmap {A B} (f : A → B) (l : list A) (i : Z) :
  Py.getitem (f <$> l) i = f <$> Py.getitem l i.
Proof.
  unfold Py.getitem. rewrite index_fmap.
  destruct (Py.index l i) as [k|]; [|done]. apply list_lookup_fmap.
Qed.

Lemma contents_fresh s : Heap.contents (Heap.fresh s) = s.
Proof.
  unfold Heap.contents, Heap.fresh. cbn. apply list_eq. intros i.
  rewrite list_lookup_fmap.
  destruct (decide (i < length s)%nat) as [Hlt|Hge].
  - rewrite lookup_seq_lt by done. cbn.
    destruct (lookup_lt_is_Some_2 s i Hlt) as [row Hrow]. by rewrite Hrow.
  - rewrite lookup_seq_ge by lia. cbn. symmetry. apply lookup_ge_None. lia.
Qed.

Lemma rows_fresh_NoDup s : NoDup (Heap.rows (Heap.fresh s)).
Proof. apply NoDup_seq. Qed.

(** With pairwise distinct row objects a write to one object changes one
    row of the grid. *)
Lemma contents_insert b k l r :
  NoDup (Heap.rows b) → Heap.rows b !! k = Some l →
  <[l:=r]> (Heap.obj b) <$> Heap.rows b = <[k:=r]> (Heap.contents b).
Proof.
  intros Hnd Hk. unfold Heap.contents. apply list_eq. intros j.
  rewrite list_lookup_fmap. destruct (decide (j = k)) as [->|Hjk].
  - rewrite Hk. cbn. rewrite fn_lookup_insert.
    rewrite list_lookup_insert_eq; [done|].
    rewrite length_fmap. by eapply lookup_lt_Some.
  - rewrite list_lookup_insert_ne by done. rewrite list_lookup_fmap.
    destruct (Heap.rows b !! j) as [l'|] eqn:Hj; [|done]. cbn. f_equal.
    apply fn_lookup_insert_ne. intros ->.
    apply Hjk. by eapply NoDup_lookup.
Qed.

Lemma agrees_rows {A} b b0 (o : outcome A) h :
  Heap.rows b0 = Heap.rows b → agrees b0 o h → agrees b o h.
Proof.
  intros Hrows. unfold agrees.
  destruct o, h; try done; by rewrite Hrows.
Qed.

Lemma simulates_ret {A} (a : A) : simulates (ret a) (Heap.ret a).
Proof. by intros b _. Qed.

Lemma simulates_bind {A B} (m : M A) h (k : A → M B) hk :
  simulates m h → (∀ a, simulates (k a) (hk a)) →
  simulates (bind m k) (Heap.bind h hk).
Proof.
  intros Hm Hk b Hnd. specialize (Hm b Hnd).
  unfold bind, Heap.bind.
  destruct (m (Heap.contents b)) as [a s|e s|], (h b) as [a' b'|e' b'|];
    try done.
  destruct Hm as (-> & Hrows & <-).
  apply (agrees_rows b b'); [done|]. apply Hk. by rewrite Hrows.
Qed.

Lemma simulates_get_value row column :
  simulates (get_value row column) (Heap.get_value row column).
Proof.
  intros b _. unfold get_value, Heap.get_value, Heap.contents.
  rewrite getitem_fmap.
  destruct (Py.getitem (Heap.rows b) row) as [l|]; [|done]. cbn.
  by destruct (Py.getitem (Heap.obj b l) column).
Qed.

Lemma simulates_set_value row column v :
  simulates (set_value row column v) (Heap.set_value row column v).
Proof.
  intros b Hnd. unfold set_value, Heap.set_value.
  unfold Heap.contents at 1 2. rewrite getitem_fmap, index_fmap.
  unfold Py.getitem.
  destruct (Py.index (Heap.rows b) row) as [k|]; [|done].
  destruct (Heap.rows b !! k) as [l|] eqn:Hk; [|done]. cbn.
  destruct (Py.setitem (Heap.obj b l) column v) as [r'|]; [|done]. cbn.
  split; [done|]. split; [done|].
  unfold Heap.contents at 1. cbn. by apply contents_insert.
Qed.

Lemma simulates_reads {A} (m : M A) :
  (∀ s, final (m s) = Some s) → simulates m (Heap.reads m).
Proof.
  intros Hfinal b _. unfold Heap.reads. specialize (Hfinal (Heap.contents b)).
  destruct (m (Heap.contents b)); cbn in *; [| |done]; by simplify_eq.
Qed.

Lemma simulates_is_valid : simulates is_valid Heap.is_valid.
Proof. apply simulates_reads, final_is_valid. Qed.

Lemma simulates_is_finished : simulates is_finished Heap.is_finished.
Proof. apply simulates_reads, final_is_finished. Qed.

Lemma simulates_probe row column values :
  ∀ acc, simulates (probe row column values acc)
                   (Heap.probe row column values acc).
Proof.
  induction values as [|v rest IH]; intros acc; [apply simulates_ret|].
  cbn [probe Heap.probe].
  apply simulates_bind; [apply simulates_set_value|]. intros _.
  apply simulates_bind; [apply simulates_is_valid|]. intros ok. apply IH.
Qed.

Lemma simulates_valid_values row column :
  simulates (valid_values row column) (Heap.valid_values row column).
Proof.
  apply simulates_bind; [apply simulates_get_value|]. intros original.
  apply simulates_bind; [apply simulates_probe|]. intros valid.
  apply simulates_bind; [apply simulates_set_value|]. intros _.
  apply simulates_ret.
Qed.

Lemma simulates_try_values recurse hrecurse row column values :
  simulates recurse hrecurse →
  simulates (try_values recurse row column values)
            (Heap.try_values hrecurse row column values).
Proof.
  intros Hrec. induction values as [|v rest IH]; [apply simulates_ret|].
  cbn [try_values Heap.try_values].
  apply simulates_bind; [apply simulates_set_value|]. intros _.
  apply simulates_bind; [done|]. intros [|]; [apply simulates_ret|].
  apply simulates_bind; [apply simulates_set_value|]. intros _. apply IH.
Qed.

Lemma simulates_scan cs body hbody :
  (∀ row column, simulates (body row column) (hbody row column)) →
  simulates (scan cs body) (Heap.scan cs hbody).
Proof.
  intros Hbody. induction cs as [|[row column] cs IH]; [apply simulates_ret|].
  cbn [scan Heap.scan].
  apply simulates_bind; [apply simulates_get_value|]. intros v.
  destruct (v =? 0); [apply Hbody|apply IH].
Qed.

Lemma simulates_solve_fuel n : simulates (solve_fuel n) (Heap.solve_fuel n).
Proof.
  induction n as [|n IH]; [by intros b _|].
  cbn [solve_fuel Heap.solve_fuel].
  apply simulates_bind; [apply simulates_is_finished|]. intros [|].
  { apply simulates_ret. }
  apply simulates_scan. intros row column.
  apply simulates_bind; [apply simulates_valid_values|]. intros values.
  by apply simulates_try_values.
Qed.

Lemma simulates_solve : simulates solve Heap.solve.
Proof. apply simulates_solve_fuel. Qed.

(** Reading off a simulated run that returns. *)
Lemma simulates_Return {A} (m : M A) h b a s :
  simulates m h → NoDup (Heap.rows b) → m (Heap.contents b) = Return a s →
  ∃ b', h b = Heap.Returned a b' ∧ Heap.rows b' = Heap.rows b ∧
        Heap.contents b' = s.
Proof.
  intros Hsim Hnd Hrun. specialize (Hsim b Hnd). rewrite Hrun in Hsim.
  destruct (h b) as [a' b'|e' b'|]; try done.
  destruct Hsim as (-> & Hrows & Hc). by exists b'.
Qed.

(** ** Cell accesses through row objects *)

Lemma heap_rows_length b :
  shaped (Heap.contents b) → length (Heap.rows b) = 9%nat.
Proof.
  intros [Hlen _]. unfold Heap.contents in Hlen.
  by rewrite length_fmap in Hlen.
Qed.

Lemma heap_obj_length b k l :
  shaped (Heap.contents b) → Heap.rows b !! k = Some l →
  length (Heap.obj b l) = 9%nat.
Proof.
  intros [_ Hrows] Hk.
  eapply (Forall_lookup_1 _ _ k) in Hrows; [exact Hrows|].
  unfold Heap.contents. by rewrite list_lookup_fmap, Hk.
Qed.

Lemma heap_row b row :
  shaped (Heap.contents b) → -9 ≤ row ≤ 8 →
  ∃ l, Py.getitem (Heap.rows b) row = Some l ∧
       Heap.rows b !! Z.to_nat (row `mod` 9) = Some l ∧
       length (Heap.obj b l) = 9%nat.
Proof.
  intros Hs Hr. pose proof (heap_rows_length b Hs) as Hlen.
  pose proof (Z.mod_pos_bound row 9) as Hm.
  unfold Py.getitem. rewrite index_mod9 by done.
  destruct (lookup_lt_is_Some_2 (Heap.rows b) (Z.to_nat (row `mod` 9)))
    as [l Hl]; [lia|].
  exists l. split; [done|]. split; [done|]. by eapply heap_obj_length.
Qed.

Lemma getitem_insert_eq (r : list Z) column column' v :
  length r = 9%nat → -9 ≤ column ≤ 8 → -9 ≤ column' ≤ 8 →
  column' `mod` 9 = column `mod` 9 →
  Py.getitem (<[Z.to_nat (column `mod` 9):=v]> r) column' = Some v.
Proof.
  intros Hlen Hc Hc' E. pose proof (Z.mod_pos_bound column 9) as Hm.
  unfold Py.getitem. rewrite index_mod9 by (by rewrite ?length_insert).
  rewrite E. apply list_lookup_insert_eq. lia.
Qed.

Lemma getitem_insert_ne (r : list Z) column column' v :
  length r = 9%nat → -9 ≤ column ≤ 8 → -9 ≤ column' ≤ 8 →
  column' `mod` 9 ≠ column `mod` 9 →
  Py.getitem (<[Z.to_nat (column `mod` 9):=v]> r) column' =
  Py.getitem r column'.
Proof.
  intros Hlen Hc Hc' Hne.
  pose proof (Z.mod_pos_bound column 9) as Hm.
  pose proof (Z.mod_pos_bound column' 9) as Hm'.
  unfold Py.getitem. rewrite !index_mod9 by (by rewrite ?length_insert).
  apply list_lookup_insert_ne. lia.
Qed.

Lemma heap_set_value b row column v l :
  -9 ≤ column ≤ 8 →
  Py.getitem (Heap.rows b) row = Some l → length (Heap.obj b l) = 9%nat →
  Heap.set_value row column v b =
  Heap.Returned tt
    (Heap.Board (Heap.rows b)
       (<[l:=<[Z.to_nat (column `mod` 9):=v]> (Heap.obj b l)]> (Heap.obj b))).
Proof.
  intros Hc Hrow Hlen. unfold Heap.set_value. rewrite Hrow.
  unfold Py.setitem. by rewrite index_mod9.
Qed.

Lemma heap_get_value_reads row column b :
  Heap.get_value row column b = Heap.reads (get_value row column) b.
Proof.
  unfold Heap.get_value, Heap.reads, get_value, Heap.contents.
  rewrite getitem_fmap.
  destruct (Py.getitem (Heap.rows b) row) as [l|]; [|done]. cbn.
  by destruct (Py.getitem (Heap.obj b l) column).
Qed.

Lemma heap_get_value_Z b row column :
  shaped (Heap.contents b) → 0 ≤ row ≤ 8 → 0 ≤ column ≤ 8 →
  Heap.get_value row column b =
  Heap.Returned (cell (Heap.contents b) (npos row column)) b.
Proof.
  intros Hs Hr Hc. rewrite heap_get_value_reads. unfold Heap.reads.
  by rewrite get_value_Z.
Qed.

Lemma shaped_heap_write b l r :
  shaped (Heap.contents b) → length r = 9%nat →
  shaped (Heap.contents (Heap.Board (Heap.rows b) (<[l:=r]> (Heap.obj b)))).
Proof.
  intros Hs Hlen. pose proof (heap_rows_length b Hs) as Hrows.
  unfold Heap.contents. cbn. split; [by rewrite length_fmap|].
  rewrite Forall_fmap. apply Forall_lookup. intros k l' Hk. cbn.
  destruct (decide (l = l')) as [<-|Hne].
  - by rewrite fn_lookup_insert.
  - rewrite fn_lookup_insert_ne by done. by eapply heap_obj_length.
Qed.

Lemma shaped_shared_zeros :
  shaped (Heap.contents (Heap.shared (replicate 9 0) 9)).
Proof. split; [reflexivity|]. vm_compute. by repeat constructor. Qed.

(** X2. On a 9x9 board and for subscripts in -9..8, [set_value] accepts
    any integer and keeps the 9x9 shape, and a following [get_value] at
    the same subscripts returns the value written.  The write changes the
    row object in place: it shows under every subscript that holds the same
    row object, and a cell of another row object or at another column reads
    as before.  So when the nine rows are nine objects of their own, every
    cell at other subscripts (modulo 9) reads as before. *)
Theorem set_value_then_get_value (b : Heap.board) (row column v : Z) :
  shaped (Heap.contents b) → -9 ≤ row ≤ 8 → -9 ≤ column ≤ 8 →
  ∃ b',
    Heap.set_value row column v b = Heap.Returned tt b' ∧
    Heap.rows b' = Heap.rows b ∧
    shaped (Heap.contents b') ∧
    Heap.get_value row column b' = Heap.Returned v b' ∧
    (∀ row' column',
       -9 ≤ row' ≤ 8 → -9 ≤ column' ≤ 8 →
       Py.getitem (Heap.rows b) row' = Py.getitem (Heap.rows b) row →
       column' `mod` 9 = column `mod` 9 →
       Heap.get_value row' column' b' = Heap.Returned v b') ∧
    (∀ row' column',
       -9 ≤ row' ≤ 8 → -9 ≤ column' ≤ 8 →
       Py.getitem (Heap.rows b) row' ≠ Py.getitem (Heap.rows b) row ∨
       column' `mod` 9 ≠ column `mod` 9 →
       ∃ w, Heap.get_value row' column' b = Heap.Returned w b ∧
            Heap.get_value row' column' b' = Heap.Returned w b') ∧
    (NoDup (Heap.rows b) →
     ∀ row' column',
       -9 ≤ row' ≤ 8 → -9 ≤ column' ≤ 8 →
       (row' `mod` 9, column' `mod` 9) ≠ (row `mod` 9, column `mod` 9) →
       ∃ w, Heap.get_value row' column' b = Heap.Returned w b ∧
            Heap.get_value row' column' b' = Heap.Returned w b').
Proof.
  intros Hs Hr Hc.
  destruct (heap_row b row Hs Hr) as (l & Hrow & Hk & Hlen).
  set (r' := <[Z.to_nat (column `mod` 9):=v]> (Heap.obj b l)).
  set (b' := Heap.Board (Heap.rows b) (<[l:=r']> (Heap.obj b))).
  assert (length r' = 9%nat) as Hlen' by (unfold r'; by rewrite length_insert).
  assert (∀ row' column',
            -9 ≤ row' ≤ 8 → -9 ≤ column' ≤ 8 →
            Py.getitem (Heap.rows b) row' = Py.getitem (Heap.rows b) row →
            column' `mod` 9 = column `mod` 9 →
            Heap.get_value row' column' b' = Heap.Returned v b') as Hsame.
  { intros row' column' Hr' Hc' Erow Ecol. unfold Heap.get_value.
    cbn [Heap.rows Heap.obj b']. rewrite Erow, Hrow, fn_lookup_insert.
    unfold r'. by rewrite getitem_insert_eq. }
  assert (∀ row' column',
            -9 ≤ row' ≤ 8 → -9 ≤ column' ≤ 8 →
            Py.getitem (Heap.rows b) row' ≠ Py.getitem (Heap.rows b) row ∨
            column' `mod` 9 ≠ column `mod` 9 →
            ∃ w, Heap.get_value row' column' b = Heap.Returned w b ∧
                 Heap.get_value row' column' b' = Heap.Returned w b')
    as Hother.
  { intros row' column' Hr' Hc' Hne.
    destruct (heap_row b row' Hs Hr') as (l' & Hrow' & Hk' & Hlen1).
    pose proof (Z.mod_pos_bound column' 9) as Hm.
    destruct (lookup_lt_is_Some_2 (Heap.obj b l')
                (Z.to_nat (column' `mod` 9))) as [w Hw]; [lia|].
    assert (Py.getitem (Heap.obj b l') column' = Some w) as Hget.
    { unfold Py.getitem. by rewrite index_mod9. }
    exists w. unfold Heap.get_value. cbn [Heap.rows Heap.obj b'].
    rewrite Hrow', Hget. split; [done|].
    destruct (decide (l = l')) as [<-|Hll].
    - rewrite fn_lookup_insert. unfold r'.
      rewrite getitem_insert_ne, Hget; try done.
      destruct Hne as [Hne|Hne]; [|done]. by rewrite Hrow, Hrow' in Hne.
    - rewrite fn_lookup_insert_ne by done. by rewrite Hget. }
  exists b'. split; [by apply heap_set_value|]. split; [done|].
  split; [by apply shaped_heap_write|].
  split; [by apply Hsame|]. split; [done|]. split; [done|].
  intros Hnd row' column' Hr' Hc' Hne. apply Hother; try done.
  destruct (decide (column' `mod` 9 = column `mod` 9)) as [Ecol|Ecol];
    [|by right].
  left. intros Erow.
  destruct (heap_row b row' Hs Hr') as (l' & Hrow' & Hk' & _).
  rewrite Hrow, Hrow' in Erow. injection Erow as ->.
  pose proof (NoDup_lookup _ _ _ _ Hnd Hk Hk') as E.
  pose proof (Z.mod_pos_bound row 9). pose proof (Z.mod_pos_bound row' 9).
  apply Hne. f_equal; [lia|done].
Qed.

Lemma set_value_then_get_value_witness :
  ∃ b',
    Heap.set_value 0 0 5 (Heap.shared (replicate 9 0) 9) =
      Heap.Returned tt b' ∧
    Heap.get_value 8 0 b' = Heap.Returned 5 b' ∧
    ∃ w, Heap.get_value 8 1 (Heap.shared (replicate 9 0) 9) =
           Heap.Returned w (Heap.shared (replicate 9 0) 9) ∧
         Heap.get_value 8 1 b' = Heap.Returned w b'.
Proof.
  destruct (set_value_then_get_value (Heap.shared (replicate 9 0) 9) 0 0 5
              shaped_shared_zeros)
    as (b' & Hset & _ & _ & _ & Hsame & Hother & _); [lia..|].
  exists b'. split; [done|]. split.
  - apply Hsame; [lia..|reflexivity|reflexivity].
  - apply Hother; [lia..|]. right. done.
Defined.

(** ** The search on a board whose rows are objects of their own *)

Lemma heap_valid_values b row column :
  shaped (Heap.contents b) → NoDup (Heap.rows b) →
  0 ≤ row ≤ 8 → 0 ≤ column ≤ 8 →
  ∃ b', Heap.valid_values row column b =
          Heap.Returned (candidates (Heap.contents b) (npos row column)) b' ∧
        Heap.rows b' = Heap.rows b ∧ Heap.contents b' = Heap.contents b.
Proof.
  intros Hs Hnd Hr Hc.
  apply (simulates_Return (valid_values row column)); try done.
  - apply simulates_valid_values.
  - by apply valid_values_Z.
Qed.

(** X5. The Sudoku rule for candidates, on a 9x9 board whose nine rows are
    nine objects of their own.  [valid_values] leaves the grid as it was;
    no digit it returns occurs in another cell of the same row, column or
    square; and when the board with the cell emptied is valid, every digit
    of 1..9 that occurs in no such cell is returned. *)
Theorem valid_values_sudoku_rule (b : Heap.board) (row column : Z) :
  shaped (Heap.contents b) → NoDup (Heap.rows b) →
  0 ≤ row ≤ 8 → 0 ≤ column ≤ 8 →
  ∃ values b',
    Heap.valid_values row column b = Heap.Returned values b' ∧
    Heap.rows b' = Heap.rows b ∧
    Heap.contents b' = Heap.contents b ∧
    (∀ v row' column',
       v ∈ values → 0 ≤ row' ≤ 8 → 0 ≤ column' ≤ 8 →
       peer (npos row column) (npos row' column') →
       Heap.get_value row' column' b ≠ Heap.Returned v b) ∧
    ((∃ b0, Heap.bind (Heap.set_value row column 0) (λ _, Heap.is_valid) b =
            Heap.Returned true b0) →
     ∀ v, 1 ≤ v ≤ 9 →
       (∀ row' column',
          0 ≤ row' ≤ 8 → 0 ≤ column' ≤ 8 →
          peer (npos row column) (npos row' column') →
          Heap.get_value row' column' b ≠ Heap.Returned v b) →
       v ∈ values).
Proof.
  intros Hs Hnd Hr Hc. set (s := Heap.contents b). set (p := npos row column).
  assert (inside p) as Hp by (by apply npos_inside).
  destruct (heap_valid_values b row column Hs Hnd Hr Hc)
    as (b' & Hrun & Hrows & Hcontents).
  destruct (candidates_sudoku_rule s p Hs Hp) as [Hnone Hall].
  exists (candidates s p), b'. split; [done|]. split; [done|].
  split; [done|]. split.
  - intros v row' column' Hv Hr' Hc' Hpeer.
    rewrite heap_get_value_Z by done. intros [= E]. revert E.
    apply Hnone; [done| |done]. by apply npos_inside.
  - intros [b0 Hrest] v Hv Hfree. apply Hall; [|done|].
    + pose proof (simulates_bind (set_value row column 0) _ (λ _, is_valid) _
                    (simulates_set_value row column 0)
                    (λ _, simulates_is_valid) b Hnd) as Hsim.
      fold s in Hsim. rewrite probe_is_valid in Hsim by done.
      rewrite Hrest in Hsim. by destruct Hsim as [-> _].
    + intros [r' c'] [Hr' Hc'] Hpeer. cbn [fst snd] in *.
      specialize (Hfree (Z.of_nat r') (Z.of_nat c')).
      rewrite heap_get_value_Z in Hfree by (done || lia).
      assert (npos (Z.of_nat r') (Z.of_nat c') = (r', c')) as Eq
        by (unfold npos; by rewrite !Nat2Z.id).
      rewrite Eq in Hfree.
      intros E. apply Hfree; [lia|lia|done|]. unfold s in E. by rewrite E.
Qed.

Lemma valid_values_sudoku_rule_witness :
  ∃ values b',
    Heap.valid_values 0 0 (Heap.fresh main_board) =
      Heap.Returned values b' ∧
    Heap.rows b' = Heap.rows (Heap.fresh main_board) ∧
    Heap.contents b' = Heap.contents (Heap.fresh main_board) ∧
    (∀ v row' column',
       v ∈ values → 0 ≤ row' ≤ 8 → 0 ≤ column' ≤ 8 →
       peer (npos 0 0) (npos row' column') →
       Heap.get_value row' column' (Heap.fresh main_board) ≠
       Heap.Returned v (Heap.fresh main_board)) ∧
    ((∃ b0, Heap.bind (Heap.set_value 0 0 0) (λ _, Heap.is_valid)
              (Heap.fresh main_board) = Heap.Returned true b0) →
     ∀ v, 1 ≤ v ≤ 9 →
       (∀ row' column',
          0 ≤ row' ≤ 8 → 0 ≤ column' ≤ 8 →
          peer (npos 0 0) (npos row' column') →
          Heap.get_value row' column' (Heap.fresh main_board) ≠
          Heap.Returned v (Heap.fresh main_board)) →
       v ∈ values).
Proof.
  apply (valid_values_sudoku_rule (Heap.fresh main_board) 0 0).
  - rewrite contents_fresh. exact shaped_main_board.
  - apply rows_fresh_NoDup.
  - lia.
  - lia.
Defined.

(** X11. On a 9x9 board whose nine rows are nine objects of their own,
    [solve] is complete.  It returns the board, holding a solution, exactly
    when the grid has a solution (a finished grid that keeps the clues and
    has a digit of 1..9 in every cell that was empty); it returns [None],
    with the grid as at entry, exactly when there is no solution; and a
    unique solution is the one it returns. *)
Theorem solve_complete (b : Heap.board) :
  shaped (Heap.contents b) → NoDup (Heap.rows b) →
  ((∃ t, solution (Heap.contents b) t) ↔
   ∃ b', Heap.solve b = Heap.Returned Solved b' ∧
         Heap.rows b' = Heap.rows b ∧
         solution (Heap.contents b) (Heap.contents b')) ∧
  ((∀ t, ¬ solution (Heap.contents b) t) ↔
   ∃ b', Heap.solve b = Heap.Returned NotSolvable b' ∧
         Heap.rows b' = Heap.rows b ∧
         Heap.contents b' = Heap.contents b) ∧
  (∀ t, solution (Heap.contents b) t →
        (∀ t', solution (Heap.contents b) t' → t' = t) →
        ∃ b', Heap.solve b = Heap.Returned Solved b' ∧
              Heap.rows b' = Heap.rows b ∧ Heap.contents b' = t).
Proof.
  intros Hs Hnd.
  destruct (solve_full_shaped _ Hs) as (a & s' & Hrun & Ha).
  destruct (simulates_Return solve Heap.solve b a s' simulates_solve Hnd Hrun)
    as (b' & Hrun' & Hrows & Hcontents).
  destruct a.
  - destruct Ha as [Hsol Hleast]. split; [|split].
    + split; [|by exists s']. intros _. exists b'. by rewrite Hcontents.
    + split.
      * intros Hnone. by destruct (Hnone s').
      * intros (b2 & Hrun2 & _). by rewrite Hrun' in Hrun2.
    + intros t Ht Huniq. exists b'. by rewrite Hcontents, (Huniq s' Hsol).
  - destruct Ha as [-> Hnone]. split; [|split].
    + split.
      * intros [t Ht]. by destruct (Hnone t).
      * intros (b2 & Hrun2 & _). by rewrite Hrun' in Hrun2.
    + split; [|done]. intros _. by exists b'.
    + intros t Ht. by destruct (Hnone t).
Qed.

Lemma solve_complete_witness :
  ((∃ t, solution (Heap.contents (Heap.fresh twin_puzzle)) t) ↔
   ∃ b', Heap.solve (Heap.fresh twin_puzzle) = Heap.Returned Solved b' ∧
         Heap.rows b' = Heap.rows (Heap.fresh twin_puzzle) ∧
         solution (Heap.contents (Heap.fresh twin_puzzle))
                  (Heap.contents b')) ∧
  ((∀ t, ¬ solution (Heap.contents (Heap.fresh twin_puzzle)) t) ↔
   ∃ b', Heap.solve (Heap.fresh twin_puzzle) =
           Heap.Returned NotSolvable b' ∧
         Heap.rows b' = Heap.rows (Heap.fresh twin_puzzle) ∧
         Heap.contents b' = Heap.contents (Heap.fresh twin_puzzle)) ∧
  (∀ t, solution (Heap.contents (Heap.fresh twin_puzzle)) t →
        (∀ t', solution (Heap.contents (Heap.fresh twin_puzzle)) t' →
               t' = t) →
        ∃ b', Heap.solve (Heap.fresh twin_puzzle) =
                Heap.Returned Solved b' ∧
              Heap.rows b' = Heap.rows (Heap.fresh twin_puzzle) ∧
              Heap.contents b' = t).
Proof.
  apply (solve_complete (Heap.fresh twin_puzzle)).
  - rewrite contents_fresh. exact shaped_twin_puzzle.
  - apply rows_fresh_NoDup.
Defined.

(** ** Boards with a shared row object *)

Lemma heap_bind_Returned {A B} (m : Heap.M A) (k : A → Heap.M B) b a b' :
  m b = Heap.Returned a b' → Heap.bind m k b = k a b'.
Proof. unfold Heap.bind. by intros ->. Qed.

Lemma unchanged_refl b : unchanged b b.
Proof. by split. Qed.

Lemma unchanged_sym b b' : unchanged b b' → unchanged b' b.
Proof. intros [Hrows Hobj]. split; [done|]. intros l. by rewrite Hobj. Qed.

Lemma unchanged_trans b1 b2 b3 :
  unchanged b1 b2 → unchanged b2 b3 → unchanged b1 b3.
Proof.
  intros [Hrows Hobj] [Hrows' Hobj']. split; [congruence|].
  intros l. by rewrite Hobj', Hobj.
Qed.

Lemma unchanged_contents b b' :
  unchanged b b' → Heap.contents b' = Heap.contents b.
Proof.
  intros [Hrows Hobj]. unfold Heap.contents. rewrite Hrows.
  apply list_fmap_ext. intros i l _. apply Hobj.
Qed.

Lemma unchanged_shares_row b b' : unchanged b b' → shares_row b → shares_row b'.
Proof. intros [Hrows _]. unfold shares_row. by rewrite Hrows. Qed.

Lemma written_written b l c v w :
  unchanged (written b l c w) (written (written b l c v) l c w).
Proof.
  split; [done|]. intros l'. cbn. destruct (decide (l = l')) as [<-|Hne].
  - rewrite !fn_lookup_insert. by rewrite list_insert_insert_eq.
  - by rewrite !fn_lookup_insert_ne.
Qed.

Lemma written_id b l c v :
  Heap.obj b l !! c = Some v → unchanged b (written b l c v).
Proof.
  intros Hv. split; [done|]. intros l'. cbn.
  destruct (decide (l = l')) as [<-|Hne].
  - rewrite fn_lookup_insert. by apply list_insert_id.
  - by rewrite fn_lookup_insert_ne.
Qed.

Lemma written_unchanged b b1 l c v :
  unchanged b b1 → unchanged (written b l c v) (written b1 l c v).
Proof.
  intros [Hrows Hobj]. split; [done|]. intros l'. cbn.
  destruct (decide (l = l')) as [<-|Hne].
  - by rewrite !fn_lookup_insert, Hobj.
  - by rewrite !fn_lookup_insert_ne, Hobj.
Qed.

Lemma shaped_written b l c v :
  shaped (Heap.contents b) → length (Heap.obj b l) = 9%nat →
  shaped (Heap.contents (written b l c v)).
Proof.
  intros Hs Hlen. apply shaped_heap_write; [done|]. by rewrite length_insert.
Qed.

Lemma heap_cell b k l c :
  Heap.rows b !! k = Some l →
  cell (Heap.contents b) (k, c) = default 0 (Heap.obj b l !! c).
Proof.
  intros Hk. unfold cell, Heap.contents. cbn.
  by rewrite list_lookup_fmap, Hk.
Qed.

Lemma heap_row_inside b p :
  shaped (Heap.contents b) → inside p →
  ∃ l, Heap.rows b !! p.1 = Some l ∧ length (Heap.obj b l) = 9%nat ∧
       Heap.obj b l !! p.2 = Some (cell (Heap.contents b) p).
Proof.
  intros Hs [Hr Hc]. destruct p as [r c]. cbn [fst snd] in *.
  destruct (lookup_lt_is_Some_2 (Heap.rows b) r) as [l Hl].
  { rewrite heap_rows_length by done. lia. }
  pose proof (heap_obj_length b r l Hs Hl) as Hlen.
  exists l. split; [done|]. split; [done|].
  rewrite (heap_cell b r l c Hl).
  destruct (lookup_lt_is_Some_2 (Heap.obj b l) c) as [x Hx]; [lia|].
  by rewrite Hx.
Qed.

Lemma heap_cell_written b k l c v :
  Heap.rows b !! k = Some l → (c < length (Heap.obj b l))%nat →
  cell (Heap.contents (written b l c v)) (k, c) = v.
Proof.
  intros Hk Hc. rewrite (heap_cell _ k l c) by done. cbn.
  rewrite fn_lookup_insert. by rewrite list_lookup_insert_eq.
Qed.

Lemma heap_set_value_inside b p l v :
  shaped (Heap.contents b) → inside p → Heap.rows b !! p.1 = Some l →
  Heap.set_value (Z.of_nat p.1) (Z.of_nat p.2) v b =
  Heap.Returned tt (written b l p.2 v).
Proof.
  intros Hs [Hr Hc] Hl. unfold Heap.set_value.
  rewrite getitem_of_nat, Hl. rewrite setitem_of_nat; [done|].
  rewrite (heap_obj_length b p.1 l) by done. lia.
Qed.

Lemma heap_get_value_inside b p :
  shaped (Heap.contents b) → inside p →
  Heap.get_value (Z.of_nat p.1) (Z.of_nat p.2) b =
  Heap.Returned (cell (Heap.contents b) p) b.
Proof.
  intros Hs Hp. rewrite heap_get_value_reads. unfold Heap.reads.
  by rewrite get_value_inside.
Qed.

Lemma heap_is_valid b :
  shaped (Heap.contents b) →
  Heap.is_valid b = Heap.Returned (valid_b (Heap.contents b)) b.
Proof.
  intros Hs. unfold Heap.is_valid, Heap.reads. by rewrite is_valid_shaped.
Qed.

Lemma heap_is_finished b :
  shaped (Heap.contents b) →
  Heap.is_finished b = Heap.Returned (finished_b (Heap.contents b)) b.
Proof.
  intros Hs. unfold Heap.is_finished, Heap.reads.
  by rewrite is_finished_shaped.
Qed.

(** The probing loop, whatever the sharing: the digit [v] is kept when the
    grid with [v] written into the row object is free of repeated
    digits. *)
Lemma heap_probe b p l :
  shaped (Heap.contents b) → inside p → Heap.rows b !! p.1 = Some l →
  ∀ values acc b1 w,
    unchanged (written b l p.2 w) b1 →
    ∃ b2 w',
      Heap.probe (Z.of_nat p.1) (Z.of_nat p.2) values acc b1 =
        Heap.Returned
          (acc ++ filter (λ v, valid_b (Heap.contents (written b l p.2 v))
                               = true) values) b2 ∧
      unchanged (written b l p.2 w') b2.
Proof.
  intros Hs Hp Hl. pose proof (heap_obj_length b p.1 l Hs Hl) as Hlen.
  induction values as [|v rest IH]; intros acc b1 w Hb1.
  { exists b1, w. cbn. by rewrite app_nil_r. }
  cbn [Heap.probe].
  assert (shaped (Heap.contents b1)) as Hs1.
  { rewrite (unchanged_contents _ _ Hb1). by apply shaped_written. }
  assert (Heap.rows b1 !! p.1 = Some l) as Hl1.
  { destruct Hb1 as [Hrows _]. by rewrite Hrows. }
  erewrite heap_bind_Returned; [|by apply (heap_set_value_inside b1 p l)].
  assert (unchanged (written b l p.2 v) (written b1 l p.2 v)) as Hb1'.
  { eapply unchanged_trans; [apply (written_written b l p.2 w v)|].
    by apply written_unchanged. }
  assert (shaped (Heap.contents (written b1 l p.2 v))) as Hs1'.
  { rewrite (unchanged_contents _ _ Hb1'). by apply shaped_written. }
  erewrite heap_bind_Returned; [|by apply heap_is_valid].
  rewrite (unchanged_contents _ _ Hb1').
  destruct (IH (if valid_b (Heap.contents (written b l p.2 v))
                then acc ++ [v] else acc) (written b1 l p.2 v) v Hb1')
    as (b2 & w' & Hrun & Hb2).
  exists b2, w'. split; [|done]. rewrite Hrun. f_equal.
  rewrite filter_cons.
  destruct (valid_b (Heap.contents (written b l p.2 v))) eqn:E.
  - rewrite decide_True by done. by rewrite <- app_assoc.
  - by rewrite decide_False by done.
Qed.

(** [valid_values], whatever the sharing: every row object is left as it
    was. *)
Lemma heap_valid_values_any b p :
  shaped (Heap.contents b) → inside p →
  ∃ l b',
    Heap.rows b !! p.1 = Some l ∧
    Heap.valid_values (Z.of_nat p.1) (Z.of_nat p.2) b =
      Heap.Returned
        (filter (λ v, valid_b (Heap.contents (written b l p.2 v)) = true)
                (Py.range 1 10)) b' ∧
    unchanged b b'.
Proof.
  intros Hs Hp. destruct (heap_row_inside b p Hs Hp) as (l & Hl & Hlen & Hcell).
  unfold Heap.valid_values.
  erewrite heap_bind_Returned; [|by apply heap_get_value_inside].
  destruct (heap_probe b p l Hs Hp Hl (Py.range 1 10) [] b
              (cell (Heap.contents b) p)) as (b2 & w' & Hrun & Hb2).
  { by apply unchanged_sym, written_id. }
  erewrite heap_bind_Returned; [|exact Hrun].
  assert (shaped (Heap.contents b2)) as Hs2.
  { rewrite (unchanged_contents _ _ Hb2). by apply shaped_written. }
  assert (Heap.rows b2 !! p.1 = Some l) as Hl2.
  { destruct Hb2 as [Hrows _]. by rewrite Hrows. }
  erewrite heap_bind_Returned; [|by apply (heap_set_value_inside b2 p l)].
  exists l, (written b2 l p.2 (cell (Heap.contents b) p)).
  split; [done|]. split; [done|].
  eapply unchanged_trans; [by apply (written_id b l p.2)|].
  eapply unchanged_trans; [apply (written_written b l p.2 w')|].
  by apply written_unchanged.
Qed.

Lemma filter_none {A} (P : A → Prop) `{!∀ x, Decision (P x)} (l : list A) :
  (∀ x, x ∈ l → ¬ P x) → filter P l = [].
Proof.
  induction l as [|x l IH]; intros Hnone; [done|].
  rewrite filter_cons, decide_False by (apply Hnone, list_elem_of_here).
  apply IH. intros y Hy. by apply Hnone, list_elem_of_further.
Qed.

(** A digit written into a row object that sits under two subscripts
    stands twice in its column. *)
Lemma shared_write_invalid b i j l c v :
  shaped (Heap.contents b) → i ≠ j →
  Heap.rows b !! i = Some l → Heap.rows b !! j = Some l →
  (c < 9)%nat → v ≠ 0 →
  valid_b (Heap.contents (written b l c v)) = false.
Proof.
  intros Hs Hij Hi Hj Hc Hv.
  pose proof (heap_obj_length b i l Hs Hi) as Hlen.
  pose proof (heap_rows_length b Hs) as Hrows.
  apply (column_clash_invalid _ i j c); try done.
  - apply lookup_lt_Some in Hi. lia.
  - apply lookup_lt_Some in Hj. lia.
  - rewrite heap_cell_written by (done || lia). done.
  - rewrite !heap_cell_written by (done || lia). done.
Qed.

Lemma shares_row_subscripts b row row' :
  shaped (Heap.contents b) →
  0 ≤ row ≤ 8 → 0 ≤ row' ≤ 8 → row ≠ row' →
  Py.getitem (Heap.rows b) row = Py.getitem (Heap.rows b) row' →
  ∃ l, Heap.rows b !! Z.to_nat row = Some l ∧
       Heap.rows b !! Z.to_nat row' = Some l ∧ Z.to_nat row ≠ Z.to_nat row'.
Proof.
  intros Hs Hr Hr' Hne E.
  rewrite <- (Z2Nat.id row), <- (Z2Nat.id row'), !getitem_of_nat in E by lia.
  destruct (lookup_lt_is_Some_2 (Heap.rows b) (Z.to_nat row)) as [l Hl].
  { rewrite heap_rows_length by done. lia. }
  exists l. split; [done|]. split; [by rewrite <- E|lia].
Qed.

(** X20. When one row object sits under two subscripts of a 9x9 board,
    [valid_values] returns no candidate for any cell of that row: each
    probe shows in both rows, so the probed digit stands twice in the
    column and [is_valid] fails.  Every row object is left as it was. *)
Theorem valid_values_shared_row (b : Heap.board) (row row' column : Z) :
  shaped (Heap.contents b) →
  0 ≤ row ≤ 8 → 0 ≤ row' ≤ 8 → 0 ≤ column ≤ 8 →
  row ≠ row' →
  Py.getitem (Heap.rows b) row = Py.getitem (Heap.rows b) row' →
  ∃ b', Heap.valid_values row column b = Heap.Returned [] b' ∧
        unchanged b b'.
Proof.
  intros Hs Hr Hr' Hc Hne Hshare.
  destruct (shares_row_subscripts b row row' Hs Hr Hr' Hne Hshare)
    as (l & Hi & Hj & Hij).
  set (p := npos row column).
  assert (inside p) as Hp by (by apply npos_inside).
  destruct (heap_valid_values_any b p Hs Hp) as (l' & b' & Hl' & Hrun & Hb').
  cbn [fst snd p npos] in Hl', Hrun. rewrite !Z2Nat.id in Hrun by lia.
  rewrite Hi in Hl'. injection Hl' as <-.
  exists b'. split; [|done]. rewrite Hrun. f_equal.
  apply filter_none. intros v Hv.
  unfold Py.range in Hv. apply elem_of_seqZ in Hv.
  rewrite (shared_write_invalid b (Z.to_nat row) (Z.to_nat row') l);
    try done; lia.
Qed.

Lemma valid_values_shared_row_witness :
  ∃ b', Heap.valid_values 0 0 (Heap.shared (replicate 9 0) 9) =
          Heap.Returned [] b' ∧
        unchanged (Heap.shared (replicate 9 0) 9) b'.
Proof.
  apply (valid_values_shared_row (Heap.shared (replicate 9 0) 9) 0 1 0);
    [exact shaped_shared_zeros|lia|lia|lia|done|reflexivity].
Defined.

(** ** The search on a board with a shared row object *)

Lemma count_zeros_cons row s :
  count_zeros (row :: s) = (zeros row + count_zeros s)%nat.
Proof.
  unfold count_zeros, zeros. cbn [concat]. by rewrite filter_app, length_app.
Qed.

Lemma count_zeros_fmap_le (f g : nat → list Z) (ls : list nat) :
  (∀ l, (zeros (g l) ≤ zeros (f l))%nat) →
  (count_zeros (g <$> ls) ≤ count_zeros (f <$> ls))%nat.
Proof.
  intros Hle. induction ls as [|l ls IH]; [done|].
  rewrite !fmap_cons, !count_zeros_cons. specialize (Hle l). lia.
Qed.

Lemma count_zeros_fmap_lt (f g : nat → list Z) (ls : list nat) (l : nat) :
  l ∈ ls →
  (zeros (g l) < zeros (f l))%nat →
  (∀ l', (zeros (g l') ≤ zeros (f l'))%nat) →
  (count_zeros (g <$> ls) < count_zeros (f <$> ls))%nat.
Proof.
  intros Hin Hlt Hle. induction ls as [|l' ls IH].
  { by apply elem_of_nil in Hin. }
  rewrite !fmap_cons, !count_zeros_cons.
  pose proof (count_zeros_fmap_le f g ls Hle) as Hrest.
  apply elem_of_cons in Hin as [<-|Hin]; [lia|].
  specialize (IH Hin). specialize (Hle l'). lia.
Qed.

(** A digit written over an empty cell leaves fewer empty cells, however
    many subscripts the row object sits under. *)
Lemma count_zeros_written b k l c v :
  Heap.rows b !! k = Some l → Heap.obj b l !! c = Some 0 → v ≠ 0 →
  (count_zeros (Heap.contents (written b l c v)) <
   count_zeros (Heap.contents b))%nat.
Proof.
  intros Hk Hz Hv. unfold Heap.contents, written. cbn [Heap.rows Heap.obj].
  pose proof (zeros_insert (Heap.obj b l) c v Hz Hv) as Hone.
  fold (zeros (<[c:=v]> (Heap.obj b l))) in Hone.
  fold (zeros (Heap.obj b l)) in Hone.
  apply (count_zeros_fmap_lt _ _ _ l).
  - by eapply list_elem_of_lookup_2.
  - rewrite fn_lookup_insert. lia.
  - intros l'. destruct (decide (l = l')) as [<-|Hne].
    + rewrite fn_lookup_insert. lia.
    + by rewrite fn_lookup_insert_ne.
Qed.

(** A board with a shared row object is never finished: a filled cell of
    the shared row stands twice in its column. *)
Lemma shares_row_not_finished b :
  shaped (Heap.contents b) → shares_row b →
  finished_b (Heap.contents b) = false.
Proof.
  intros Hs (i & j & l & Hij & Hi & Hj).
  destruct (finished_b (Heap.contents b)) eqn:Hfin; [|done]. exfalso.
  unfold finished_b in Hfin. apply andb_true_iff in Hfin as [Hfilled Hvalid].
  pose proof (heap_rows_length b Hs) as Hrows.
  pose proof (lookup_lt_Some _ _ _ Hi) as Hi9.
  pose proof (lookup_lt_Some _ _ _ Hj) as Hj9.
  rewrite (filled_cells _ Hs) in Hfilled.
  assert (valid_b (Heap.contents b) = false) as Hinv; [|congruence].
  apply (column_clash_invalid _ i j 0%nat); try lia.
  - apply Hfilled. split; cbn; lia.
  - by rewrite (heap_cell b i l), (heap_cell b j l).
Qed.

Lemma heap_scan_first hbody b ps :
  shaped (Heap.contents b) → Forall inside ps →
  Heap.scan (zpos <$> ps) hbody b = Heap.Returned NotSolvable b ∨
  ∃ p, inside p ∧ cell (Heap.contents b) p = 0 ∧
       Heap.scan (zpos <$> ps) hbody b =
       hbody (Z.of_nat p.1) (Z.of_nat p.2) b.
Proof.
  intros Hs. induction ps as [|p ps IH]; intros Hin; [by left|].
  apply Forall_cons in Hin as [Hp Hin].
  rewrite fmap_cons. unfold zpos at 1 3. cbn [Heap.scan].
  erewrite heap_bind_Returned; [|by apply heap_get_value_inside].
  destruct (Z.eqb_spec (cell (Heap.contents b) p) 0) as [E|E].
  - right. by exists p.
  - by apply IH.
Qed.

Lemma heap_try_values_shared n :
  (∀ b, shaped (Heap.contents b) → shares_row b →
        (count_zeros (Heap.contents b) < n)%nat →
        ∃ b', Heap.solve_fuel n b = Heap.Returned NotSolvable b' ∧
              unchanged b b') →
  ∀ p values, inside p → Forall (λ v, v ≠ 0) values →
  ∀ b, shaped (Heap.contents b) → shares_row b →
       cell (Heap.contents b) p = 0 →
       (count_zeros (Heap.contents b) ≤ n)%nat →
       ∃ b', Heap.try_values (Heap.solve_fuel n)
               (Z.of_nat p.1) (Z.of_nat p.2) values b =
               Heap.Returned NotSolvable b' ∧
             unchanged b b'.
Proof.
  intros IHn p values Hp.
  induction values as [|v rest IH]; intros Hnz b Hs Hsh Hz Hcount.
  { exists b. split; [done|apply unchanged_refl]. }
  apply Forall_cons in Hnz as [Hv Hnz].
  destruct (heap_row_inside b p Hs Hp) as (l & Hl & Hlen & Hcell).
  rewrite Hz in Hcell.
  cbn [Heap.try_values].
  erewrite heap_bind_Returned; [|by apply (heap_set_value_inside b p l)].
  destruct (IHn (written b l p.2 v)) as (b2 & Hrun & Hb2).
  { by apply shaped_written. }
  { exact Hsh. }
  { pose proof (count_zeros_written b p.1 l p.2 v Hl Hcell Hv). lia. }
  erewrite heap_bind_Returned; [|exact Hrun].
  assert (shaped (Heap.contents b2)) as Hs2.
  { rewrite (unchanged_contents _ _ Hb2). by apply shaped_written. }
  assert (Heap.rows b2 !! p.1 = Some l) as Hl2.
  { destruct Hb2 as [Hrows _]. by rewrite Hrows. }
  cbv iota.
  erewrite heap_bind_Returned; [|by apply (heap_set_value_inside b2 p l)].
  assert (unchanged b (written b2 l p.2 0)) as Hb3.
  { eapply unchanged_trans; [by apply (written_id b l p.2 0)|].
    eapply unchanged_trans; [apply (written_written b l p.2 v 0)|].
    by apply written_unchanged. }
  destruct (IH Hnz (written b2 l p.2 0)) as (b4 & Hrun4 & Hb4).
  { by rewrite (unchanged_contents _ _ Hb3). }
  { by apply (unchanged_shares_row b). }
  { by rewrite (unchanged_contents _ _ Hb3). }
  { by rewrite (unchanged_contents _ _ Hb3). }
  exists b4. split; [done|]. by eapply unchanged_trans.
Qed.

Lemma heap_solve_fuel_shared n :
  ∀ b, shaped (Heap.contents b) → shares_row b →
       (count_zeros (Heap.contents b) < n)%nat →
       ∃ b', Heap.solve_fuel n b = Heap.Returned NotSolvable b' ∧
             unchanged b b'.
Proof.
  induction n as [|n IH]; intros b Hs Hsh Hn; [lia|].
  cbn [Heap.solve_fuel].
  erewrite heap_bind_Returned; [|by apply heap_is_finished].
  rewrite shares_row_not_finished by done. rewrite cells_all_pos.
  destruct (heap_scan_first
              (λ row column,
                 Heap.bind (Heap.valid_values row column)
                   (λ values,
                      Heap.try_values (Heap.solve_fuel n) row column values))
              b all_pos Hs all_pos_inside) as [->|(p & Hp & Hz & ->)].
  { exists b. split; [done|apply unchanged_refl]. }
  destruct (heap_valid_values_any b p Hs Hp) as (l & b1 & Hl & Hrun & Hb1).
  erewrite heap_bind_Returned; [|exact Hrun].
  destruct (heap_try_values_shared n IH p
              (filter (λ v, valid_b (Heap.contents (written b l p.2 v)) = true)
                      (Py.range 1 10)) Hp) with (b := b1)
    as (b2 & Hrun2 & Hb2).
  - apply Forall_forall. intros v Hv.
    apply list_elem_of_filter in Hv as [_ Hv].
    unfold Py.range in Hv. apply elem_of_seqZ in Hv. lia.
  - by rewrite (unchanged_contents _ _ Hb1).
  - by apply (unchanged_shares_row b).
  - by rewrite (unchanged_contents _ _ Hb1).
  - rewrite (unchanged_contents _ _ Hb1). lia.
  - exists b2. split; [done|]. by eapply unchanged_trans.
Qed.

(** X21. When one row object sits under two subscripts of a 9x9 board,
    [solve] returns [None] whatever the clues: such a board is never
    finished, and the search ends with every row object as it was. *)
Theorem solve_shared_row (b : Heap.board) (row row' : Z) :
  shaped (Heap.contents b) →
  0 ≤ row ≤ 8 → 0 ≤ row' ≤ 8 → row ≠ row' →
  Py.getitem (Heap.rows b) row = Py.getitem (Heap.rows b) row' →
  Heap.is_finished b = Heap.Returned false b ∧
  ∃ b', Heap.solve b = Heap.Returned NotSolvable b' ∧ unchanged b b'.
Proof.
  intros Hs Hr Hr' Hne Hshare.
  destruct (shares_row_subscripts b row row' Hs Hr Hr' Hne Hshare)
    as (l & Hi & Hj & Hij).
  assert (shares_row b) as Hsh by (by exists (Z.to_nat row), (Z.to_nat row'), l).
  split.
  - rewrite heap_is_finished by done. by rewrite shares_row_not_finished.
  - apply heap_solve_fuel_shared; [done..|].
    pose proof (count_zeros_bound _ Hs). lia.
Qed.

Lemma solve_shared_row_witness :
  Heap.is_finished (Heap.shared (replicate 9 0) 9) =
    Heap.Returned false (Heap.shared (replicate 9 0) 9) ∧
  ∃ b', Heap.solve (Heap.shared (replicate 9 0) 9) =
          Heap.Returned NotSolvable b' ∧
        unchanged (Heap.shared (replicate 9 0) 9) b'.
Proof.
  apply (solve_shared_row (Heap.shared (replicate 9 0) 9) 0 1);
    [exact shaped_shared_zeros|lia|lia|done|reflexivity].
Defined.
